(** * Products and orders service: a model of [main.py]

    The handlers of [main.py] are embedded as functions over an explicit
    database value.  Conventions of the model:

    - Python [str] values are ASCII strings; [str.lower] is the ASCII
      lowercase map.
    - Python [float] is IEEE binary64, here the primitive [float].
    - Python [int] is [Z]; the [limit] and [offset] query parameters,
      which FastAPI only lets through when non-negative, are [nat].
    - A [bson.ObjectId] is represented by its canonical rendering, the
      24 lowercase hexadecimal digits that [str] returns; the constructor
      follows its documented contract (a 24-character hex string, else
      [InvalidId]).
    - The document store is ideal: [find], [sort], [skip], [limit] and
      [insert_one] always answer; wire limits and connectivity are not
      modelled.  A handler returns its outcome together with the database
      it leaves behind. *)

From Stdlib Require Import ZArith Floats Ascii String.
From stdpp Require Import gmap strings list sorting.

Local Open Scope string_scope.
Local Open Scope nat_scope.

(** ** Strings *)

Definition ascii_lower (c : ascii) : ascii :=
  let n := nat_of_ascii c in
  if (65 <=? n)%nat && (n <=? 90)%nat then ascii_of_nat (n + 32) else c.

(** [str.lower] *)
Fixpoint lower (s : string) : string :=
  match s with
  | EmptyString => EmptyString
  | String c s' => String (ascii_lower c) (lower s')
  end.

(** Python truthiness of a string: non-empty. *)
Definition truthy (s : string) : bool :=
  match s with EmptyString => false | String _ _ => true end.

Definition lower_if_truthy (o : option string) : option string :=
  match o with
  | Some s => if truthy s then Some (lower s) else None
  | None => None
  end.

(** ** Exceptions and outcomes of a handler *)

Inductive exn :=
| InvalidId (oid : string)
| KeyError (key : string)
| OverflowError.

Inductive outcome (A : Type) :=
| Return (a : A)
| HTTPException (status_code : nat) (detail : string)
| RequestValidationError
| Raised (e : exn).
Arguments Return {A} a.
Arguments HTTPException {A} status_code detail.
Arguments RequestValidationError {A}.
Arguments Raised {A} e.

(** ** ObjectId *)

Record ObjectId := Oid { oid_hex : string }.

Global Instance ObjectId_eq_dec : EqDecision ObjectId.
Proof. solve_decision. Defined.

Definition is_hex_digit (c : ascii) : bool :=
  let n := nat_of_ascii c in
  ((48 <=? n)%nat && (n <=? 57)%nat)
  || ((97 <=? n)%nat && (n <=? 102)%nat)
  || ((65 <=? n)%nat && (n <=? 70)%nat).

Fixpoint all_hex (s : string) : bool :=
  match s with
  | EmptyString => true
  | String c s' => is_hex_digit c && all_hex s'
  end.

(** [ObjectId(s)] for a [str] argument. *)
Definition ObjectId_of_str (s : string) : exn + ObjectId :=
  if (String.length s =? 24)%nat && all_hex s
  then inr (Oid (lower s))
  else inl (InvalidId s).

(** [str(oid)] *)
Definition str (o : ObjectId) : string := oid_hex o.

(** Identifiers the store hands out: a counter rendered on 24 digits. *)
Definition hex_digit (n : N) : ascii :=
  if (n <? 10)%N then ascii_of_N (48 + n) else ascii_of_N (87 + n).

Fixpoint hex_digits (width : nat) (n : N) (acc : string) : string :=
  match width with
  | O => acc
  | S w => hex_digits w (n / 16)%N (String (hex_digit (n mod 16)%N) acc)
  end.

Definition ObjectId_new (n : N) : ObjectId := Oid (hex_digits 24 n "").

(** The order [sort("_id", 1)] uses: bytewise, which on canonical
    renderings is the lexicographic order of the digits. *)
Definition oid_le (a b : ObjectId) : Prop :=
  String.le (oid_hex a) (oid_hex b).

Global Instance oid_le_dec : RelDecision oid_le.
Proof. intros a b. unfold oid_le. apply _. Defined.

(** ** Numbers *)

(** Conversion of an [int] operand to [float]: correctly rounded, and
    [OverflowError] when the integer is too large. *)
Definition float_of_int (z : Z) : option float :=
  let f := SF2Prim (binary_normalize prec emax z 0 false) in
  if PrimFloat.is_infinity f then None else Some f.

(** [x * n] for a [float] x and an [int] n. *)
Definition float_mul_int (x : float) (n : Z) : exn + float :=
  match float_of_int n with
  | Some y => inr (PrimFloat.mul x y)
  | None => inl OverflowError
  end.

(** The builtin [sum] from its start value 0, adding from left to right.
    The empty sum is the integer 0, read here as the float 0.0, as the
    response model does.  (CPython 3.12 and later carry a compensation
    term through a sum of floats; the two agree whenever no partial sum
    is rounded, as in the examples of this file.) *)
Definition py_sum (xs : list float) : float :=
  fold_left PrimFloat.add xs PrimFloat.zero.

(** ** Data models *)

Record ProductIn := {
  name : string;
  description : option string;
  price : float;
  size : option string
}.

Definition ProductIn_to_lowercase (self : ProductIn) : ProductIn :=
  {| name := lower (name self);
     description := lower_if_truthy (description self);
     price := price self;
     size := lower_if_truthy (size self) |}.

(** A document of the [products] collection. *)
Record ProductDoc := {
  product_oid : ObjectId;
  product_fields : ProductIn
}.

(** [ProductOut]: the fields of [ProductIn] and the identifier as text. *)
Record ProductOut := {
  product_out_id : string;
  product_out_fields : ProductIn
}.

Record OrderItem := {
  product_id : string;
  quantity : Z
}.

Record OrderIn := {
  user_id : string;
  items : list OrderItem
}.

Definition lower_item (item : OrderItem) : OrderItem :=
  {| product_id := lower (product_id item); quantity := quantity item |}.

Definition OrderIn_to_lowercase (self : OrderIn) : OrderIn :=
  {| user_id := lower (user_id self);
     items := lower_item <$> items self |}.

(** A document of the [orders] collection. *)
Record OrderDoc := {
  order_oid : ObjectId;
  order_user_id : string;
  order_items : list OrderItem;
  order_total : float
}.

(** [OrderOut]: the fields of [OrderIn], the identifier as text, [total]. *)
Record OrderOut := {
  order_out_id : string;
  out_user_id : string;
  out_items : list OrderItem;
  total : float
}.

(** Field constraints FastAPI checks before a handler runs. *)
Definition ProductIn_valid (p : ProductIn) : bool :=
  (1 <=? String.length (name p))%nat && PrimFloat.ltb PrimFloat.zero (price p).

Definition OrderItem_valid (item : OrderItem) : bool := (0 <? quantity item)%Z.

Definition OrderIn_valid (o : OrderIn) : bool :=
  (1 <=? String.length (user_id o))%nat && forallb OrderItem_valid (items o).

(** ** The database *)

Record Database := {
  products : list ProductDoc;
  orders : list OrderDoc;
  oid_counter : N
}.

Definition insert_one_product (doc : ProductIn) (db : Database)
  : ObjectId * Database :=
  let inserted_id := ObjectId_new (oid_counter db) in
  (inserted_id,
   {| products := products db ++ [{| product_oid := inserted_id;
                                     product_fields := doc |}];
      orders := orders db;
      oid_counter := N.succ (oid_counter db) |}).

Definition insert_one_order (user : string) (its : list OrderItem)
    (tot : float) (db : Database) : ObjectId * Database :=
  let inserted_id := ObjectId_new (oid_counter db) in
  (inserted_id,
   {| products := products db;
      orders := orders db ++ [{| order_oid := inserted_id;
                                 order_user_id := user;
                                 order_items := its;
                                 order_total := tot |}];
      oid_counter := N.succ (oid_counter db) |}).

(** [find({"_id": {"$in": ids}})] on the products collection. *)
Definition find_id_in (ids : list ObjectId) (coll : list ProductDoc)
  : list ProductDoc :=
  filter (fun p => product_oid p ∈ ids) coll.

(** [cursor.to_list(length=n)] *)
Definition to_list {A} (n : nat) (cursor : list A) : list A := take n cursor.

(** [.sort("_id", 1)] *)
Definition product_le (p q : ProductDoc) : Prop :=
  oid_le (product_oid p) (product_oid q).

Definition order_le (p q : OrderDoc) : Prop :=
  oid_le (order_oid p) (order_oid q).

Global Instance product_le_dec : RelDecision product_le.
Proof. intros p q. unfold product_le. apply _. Defined.

Global Instance order_le_dec : RelDecision order_le.
Proof. intros p q. unfold order_le. apply _. Defined.

Definition sort_products (coll : list ProductDoc) : list ProductDoc :=
  merge_sort product_le coll.

Definition sort_orders (coll : list OrderDoc) : list OrderDoc :=
  merge_sort order_le coll.

(** ** POST /products *)

Definition create_product (product : ProductIn) (db : Database)
  : outcome ProductOut * Database :=
  let product := ProductIn_to_lowercase product in
  let '(inserted_id, db') := insert_one_product product db in
  (Return {| product_out_id := str inserted_id;
             product_out_fields := product |}, db').

Definition post_products (body : ProductIn) (db : Database)
  : outcome ProductOut * Database :=
  if ProductIn_valid body then create_product body db
  else (RequestValidationError, db).

(** ** POST /orders *)

(** [[ObjectId(item.product_id) for item in order.items]] *)
Fixpoint object_ids (its : list OrderItem) : exn + list ObjectId :=
  match its with
  | [] => inr []
  | item :: rest =>
      match ObjectId_of_str (product_id item) with
      | inl e => inl e
      | inr oid =>
          match object_ids rest with
          | inl e => inl e
          | inr oids => inr (oid :: oids)
          end
      end
  end.

(** [{str(p["_id"]): p["price"] for p in products}] *)
Definition add_price (m : gmap string float) (p : ProductDoc)
  : gmap string float :=
  <[str (product_oid p) := price (product_fields p)]> m.

Definition price_map_of (found : list ProductDoc) : gmap string float :=
  foldl add_price ∅ found.

(** [price_map[item.product_id] * item.quantity] *)
Definition line_total (price_map : gmap string float) (item : OrderItem)
  : exn + float :=
  match price_map !! product_id item with
  | None => inl (KeyError (product_id item))
  | Some unit_price => float_mul_int unit_price (quantity item)
  end.

(** The generator [sum] consumes: line totals in item order, up to the
    first one that raises. *)
Fixpoint line_totals (price_map : gmap string float) (its : list OrderItem)
  : exn + list float :=
  match its with
  | [] => inr []
  | item :: rest =>
      match line_total price_map item with
      | inl e => inl e
      | inr x =>
          match line_totals price_map rest with
          | inl e => inl e
          | inr xs => inr (x :: xs)
          end
      end
  end.

Definition not_found_detail : string := "One or more products not found".

Definition create_order (order : OrderIn) (db : Database)
  : outcome OrderOut * Database :=
  let order := OrderIn_to_lowercase order in
  match object_ids (items order) with
  | inl e => (Raised e, db)
  | inr product_ids =>
      let found :=
        to_list (length product_ids) (find_id_in product_ids (products db)) in
      let price_map := price_map_of found in
      if decide (base.size price_map ≠ length product_ids)
      then (HTTPException 400 not_found_detail, db)
      else
        match line_totals price_map (items order) with
        | inl e => (Raised e, db)
        | inr xs =>
            let tot := py_sum xs in
            let '(inserted_id, db') :=
              insert_one_order (user_id order) (items order) tot db in
            (Return {| order_out_id := str inserted_id;
                       out_user_id := user_id order;
                       out_items := items order;
                       total := tot |}, db')
        end
  end.

Definition post_orders (body : OrderIn) (db : Database)
  : outcome OrderOut * Database :=
  if OrderIn_valid body then create_order body db
  else (RequestValidationError, db).

(** ** GET /orders/{user_id} *)

Definition render_order (o : OrderDoc) : OrderOut :=
  {| order_out_id := str (order_oid o);
     out_user_id := order_user_id o;
     out_items := order_items o;
     total := order_total o |}.

Definition list_orders (uid : string) (limit offset : nat) (db : Database)
  : list OrderOut :=
  let cursor :=
    take limit
      (drop offset
         (sort_orders
            (filter (fun o => order_user_id o = lower uid) (orders db)))) in
  render_order <$> to_list limit cursor.

(** ** GET /products *)

(** The [$regex] operator, on the fragment of regular expressions the
    model covers: ordinary characters, which stand for themselves, and
    [.], which stands for any character but a line feed.  A pattern with
    another metacharacter is outside the fragment ([None]). *)
Inductive regex_atom :=
| Lit (c : ascii)
| AnyChar.

Definition regex_metacharacters : string := "\^$.|?*+()[]{}".

Fixpoint occurs (c : ascii) (s : string) : bool :=
  match s with
  | EmptyString => false
  | String d s' => Ascii.eqb c d || occurs c s'
  end.

Definition is_regex_meta (c : ascii) : bool := occurs c regex_metacharacters.

Fixpoint compile_regex (pattern : string) : option (list regex_atom) :=
  match pattern with
  | EmptyString => Some []
  | String c rest =>
      match compile_regex rest with
      | None => None
      | Some atoms =>
          if Ascii.eqb c "." then Some (AnyChar :: atoms)
          else if is_regex_meta c then None
          else Some (Lit c :: atoms)
      end
  end.

(** One atom against one character, under option [i]. *)
Definition atom_matches (a : regex_atom) (c : ascii) : bool :=
  match a with
  | Lit d => Ascii.eqb (ascii_lower d) (ascii_lower c)
  | AnyChar => negb (Ascii.eqb c "010")
  end.

Fixpoint match_here (atoms : list regex_atom) (s : string) : bool :=
  match atoms, s with
  | [], _ => true
  | _ :: _, EmptyString => false
  | a :: atoms', String c s' => atom_matches a c && match_here atoms' s'
  end.

(** An unanchored pattern matches when it matches at some position. *)
Fixpoint regex_search (atoms : list regex_atom) (s : string) : bool :=
  match_here atoms s
  || match s with
     | EmptyString => false
     | String _ s' => regex_search atoms s'
     end.

(** The [query] dictionary [list_products] builds. *)
Record ProductQuery := {
  query_name : option string;   (* {"$regex": name, "$options": "i"} *)
  query_size : option string
}.

Definition build_query (name_param size_param : option string) : ProductQuery :=
  {| query_name :=
       match name_param with
       | Some n => if truthy n then Some n else None
       | None => None
       end;
     query_size :=
       match size_param with
       | Some s => if truthy s then Some (lower s) else None
       | None => None
       end |}.

Definition size_matches (q : option string) (p : ProductDoc) : bool :=
  match q with
  | None => true
  | Some s => bool_decide (size (product_fields p) = Some s)
  end.

Definition name_matches (q : option (list regex_atom)) (p : ProductDoc) : bool :=
  match q with
  | None => true
  | Some atoms => regex_search atoms (name (product_fields p))
  end.

(** [db.products.find(query)] *)
Definition find_products (query : ProductQuery) (coll : list ProductDoc)
  : option (list ProductDoc) :=
  match query_name query with
  | None =>
      Some (filter (fun p => name_matches None p
                             && size_matches (query_size query) p) coll)
  | Some pattern =>
      match compile_regex pattern with
      | None => None
      | Some atoms =>
          Some (filter (fun p => name_matches (Some atoms) p
                                 && size_matches (query_size query) p) coll)
      end
  end.

Definition render_product (p : ProductDoc) : ProductOut :=
  {| product_out_id := str (product_oid p);
     product_out_fields := product_fields p |}.

Definition list_products (name_param size_param : option string)
    (limit offset : nat) (db : Database) : option (list ProductOut) :=
  let query := build_query name_param size_param in
  match find_products query (products db) with
  | None => None
  | Some matching =>
      let cursor := take limit (drop offset (sort_products matching)) in
      Some (render_product <$> to_list limit cursor)
  end.

(** ** Query parameters *)

(** [limit: int = Query(10, ge=1, le=100)] and [offset: int = Query(0, ge=0)]:
    an absent parameter takes its default, and a value out of range is
    refused before the handler runs. *)
Definition limit_param (limit : option Z) : option nat :=
  let v := default 10%Z limit in
  if (1 <=? v)%Z && (v <=? 100)%Z then Some (Z.to_nat v) else None.

Definition offset_param (offset : option Z) : option nat :=
  let v := default 0%Z offset in
  if (0 <=? v)%Z then Some (Z.to_nat v) else None.

Definition get_orders (uid : string) (limit offset : option Z) (db : Database)
  : outcome (list OrderOut) :=
  match limit_param limit, offset_param offset with
  | Some l, Some o => Return (list_orders uid l o db)
  | _, _ => RequestValidationError
  end.

Definition get_products (name_param size_param : option string)
    (limit offset : option Z) (db : Database)
  : option (outcome (list ProductOut)) :=
  match limit_param limit, offset_param offset with
  | Some l, Some o => Return <$> list_products name_param size_param l o db
  | _, _ => Some RequestValidationError
  end.

(** ** Vocabulary of the properties *)

(** The product ids of the items, as [to_lowercase] leaves them. *)
Definition normalized_ids (its : list OrderItem) : list string :=
  (fun item => lower (product_id item)) <$> its.

(** The strings [ObjectId] accepts: 24 hexadecimal digits. *)
Definition well_formed_id (s : string) : Prop :=
  String.length s = 24%nat ∧ all_hex s = true.

Definition store_ids (db : Database) : list ObjectId :=
  product_oid <$> products db.

(** The store keeps [_id] unique within a collection. *)
Definition unique_product_ids (db : Database) : Prop := NoDup (store_ids db).

(** The stored product an item refers to: the document whose identifier
    the item's product id denotes. *)
Definition referenced_product (db : Database) (item : OrderItem)
  : option ProductDoc :=
  match ObjectId_of_str (product_id item) with
  | inr oid => head (filter (fun p => product_oid p = oid) (products db))
  | inl _ => None
  end.

(** Price of the referenced product times the quantity of the item. *)
Definition priced_line (db : Database) (item : OrderItem) : option float :=
  match referenced_product db item, float_of_int (quantity item) with
  | Some p, Some q => Some (PrimFloat.mul (price (product_fields p)) q)
  | _, _ => None
  end.

(** The sum over the items, each line priced on its own. *)
Definition priced_total (db : Database) (its : list OrderItem) : option float :=
  py_sum <$> mapM (priced_line db) its.

(** The identifiers [create_order] asks the store for. *)
Definition requested_ids (its : list OrderItem) : list ObjectId :=
  Oid <$> normalized_ids its.

(** [db'] is [db] with one order document appended and nothing else
    touched. *)
Definition inserts_one_order (db db' : Database) : Prop :=
  products db' = products db ∧ ∃ doc, orders db' = (orders db ++ [doc])%list.

(** All or nothing: a returned order means one insert, any other outcome
    leaves the database as it was. *)
Definition all_or_nothing (db : Database) (r : outcome OrderOut * Database)
  : Prop :=
  match fst r with
  | Return _ => inserts_one_order db (snd r)
  | _ => snd r = db
  end.

(** The orders of a user, as [list_orders] filters them. *)
Definition orders_of (uid : string) (db : Database) : list OrderDoc :=
  filter (fun o => order_user_id o = lower uid) (orders db).

(** What the cursor of [list_products] holds before rendering. *)
Definition product_page (matching : list ProductDoc) (limit offset : nat)
  : list ProductDoc :=
  take limit (drop offset (sort_products matching)).

(** "Contains the given string as a literal substring, ignoring case":
    [is_prefix] and [contains] compare character by character, and
    [icontains] compares the lowercase forms. *)
Fixpoint is_prefix (p s : string) : bool :=
  match p, s with
  | EmptyString, _ => true
  | String _ _, EmptyString => false
  | String a p', String b s' => Ascii.eqb a b && is_prefix p' s'
  end.

Fixpoint contains (needle hay : string) : bool :=
  is_prefix needle hay
  || match hay with
     | EmptyString => false
     | String _ hay' => contains needle hay'
     end.

Definition icontains (needle hay : string) : bool :=
  contains (lower needle) (lower hay).

(** A pattern without metacharacters. *)
Fixpoint no_meta (s : string) : bool :=
  match s with
  | EmptyString => true
  | String c s' => negb (is_regex_meta c) && no_meta s'
  end.

Fixpoint literal_atoms (s : string) : list regex_atom :=
  match s with
  | EmptyString => []
  | String c s' => Lit c :: literal_atoms s'
  end.

(** The value [list_products] puts under the [size] key, if any. *)
Definition size_query (size_param : option string) : option string :=
  query_size (build_query None size_param).

(** Stored products are fixed points of [to_lowercase]. *)
Definition products_normalized (db : Database) : Prop :=
  Forall (fun p => ProductIn_to_lowercase (product_fields p) = product_fields p)
         (products db).

(** Stored orders hold lowercase user ids and product ids. *)
Definition orders_normalized (db : Database) : Prop :=
  Forall (fun o => lower (order_user_id o) = order_user_id o
                   ∧ Forall (fun item => lower (product_id item) = product_id item)
                            (order_items o))
         (orders db).

Definition order_ids (db : Database) : list ObjectId :=
  order_oid <$> orders db.

Definition unique_order_ids (db : Database) : Prop := NoDup (order_ids db).


(** A [name] parameter that selects a product named [nm]: absent, empty,
    or free of metacharacters and contained in [nm], case ignored. *)
Definition name_query_selects (name_param : option string) (nm : string)
  : Prop :=
  match name_param with
  | None => True
  | Some n => n = "" ∨ (no_meta n = true ∧ icontains n nm = true)
  end.

(** A [size] parameter that selects a product posted with size [sz]:
    absent, empty, or equal to a non-empty [sz], case ignored. *)
Definition size_query_selects (size_param sz : option string) : Prop :=
  match size_param with
  | None => True
  | Some s => s = "" ∨ ∃ given, sz = Some given ∧ given ≠ ""
                                ∧ lower s = lower given
  end.


(** Two items that differ at most in the letter case of the product id. *)
Definition same_item (a b : OrderItem) : Prop :=
  lower (product_id a) = lower (product_id b) ∧ quantity a = quantity b.

(** The database before any request. *)
Definition empty_db : Database :=
  {| products := []; orders := []; oid_counter := 0 |}.

(** The databases the two writing endpoints can produce. *)
Inductive reachable : Database → Prop :=
| reachable_empty : reachable empty_db
| reachable_post_products body db :
    reachable db → reachable (snd (post_products body db))
| reachable_post_orders body db :
    reachable db → reachable (snd (post_orders body db)).

(** Every stored identifier was handed out at an earlier count. *)
Definition ids_below (db : Database) : Prop :=
  Forall (fun oid => ∃ n, (n < oid_counter db)%N ∧ oid = ObjectId_new n)
         (store_ids db ++ order_ids db).

(** Every item of every stored order refers to a stored product. *)
Definition referential_integrity (db : Database) : Prop :=
  Forall (fun o => Forall (fun item => is_Some (referenced_product db item))
                          (order_items o))
         (orders db).

Record db_invariant (db : Database) : Prop := {
  inv_product_ids : unique_product_ids db;
  inv_order_ids : unique_order_ids db;
  inv_ids_below : ids_below db;
  inv_products_normalized : products_normalized db;
  inv_orders_normalized : orders_normalized db;
  inv_references : referential_integrity db
}.

(** ** Sample data *)

Definition P1 : string := "64b7f0c2a1d3e4f5a6b7c8d1".
Definition P2 : string := "64b7f0c2a1d3e4f5a6b7c8d2".
Definition unknown_id : string := "64b7f0c2a1d3e4f5a6b7c8ff".

Definition sample_product (oid nm : string) (unit_price : float) : ProductDoc :=
  {| product_oid := Oid oid;
     product_fields := {| name := nm; description := None;
                          price := unit_price; size := None |} |}.

Definition sample_db : Database :=
  {| products := [sample_product P1 "notebook" 10%float;
                  sample_product P2 "pencil" 2.5%float];
     orders := [];
     oid_counter := 7 |}.

Definition sample_order : OrderIn :=
  {| user_id := "Alice";
     items := [{| product_id := P1; quantity := 2 |};
               {| product_id := P2; quantity := 4 |}] |}.

Definition huge_order : OrderIn :=
  {| user_id := "Alice";
     items := [{| product_id := P1; quantity := 2 ^ 1024 |}] |}.

Definition duplicate_order : OrderIn :=
  {| user_id := "Alice";
     items := [{| product_id := P1; quantity := 1 |};
               {| product_id := P1; quantity := 1 |}] |}.

Definition missing_order : OrderIn :=
  {| user_id := "Alice";
     items := [{| product_id := P1; quantity := 1 |};
               {| product_id := unknown_id; quantity := 1 |}] |}.

Definition malformed_order : OrderIn :=
  {| user_id := "Alice";
     items := [{| product_id := "not-an-id"; quantity := 1 |}] |}.

Definition empty_order : OrderIn := {| user_id := "Alice"; items := [] |}.

Definition fifteen_products : list ProductDoc :=
  (fun n => {| product_oid := ObjectId_new n;
               product_fields := {| name := "item"; description := None;
                                    price := 1%float; size := None |} |})
    <$> [12; 3; 7; 0; 14; 1; 9; 5; 11; 2; 8; 13; 4; 10; 6]%N.

Definition fifteen_db : Database :=
  {| products := fifteen_products; orders := []; oid_counter := 15 |}.

(** A store in which the user already has ten orders. *)
Definition busy_db : Database :=
  {| products := products sample_db;
     orders := (fun n => {| order_oid := ObjectId_new n;
                            order_user_id := "alice";
                            order_items := [];
                            order_total := 0%float |})
                 <$> [0; 1; 2; 3; 4; 5; 6; 7; 8; 9]%N;
     oid_counter := 10 |}.

Definition regex_db : Database :=
  {| products := [sample_product P1 "abc" 1%float;
                  sample_product P2 "a.c" 1%float;
                  sample_product unknown_id "xyz" 1%float];
     orders := [];
     oid_counter := 3 |}.

(** [sample_order] in capital letters. *)
Definition shouting_order : OrderIn :=
  {| user_id := "ALICE";
     items := [{| product_id := "64B7F0C2A1D3E4F5A6B7C8D1"; quantity := 2 |};
               {| product_id := "64B7F0C2A1D3E4F5A6B7C8D2"; quantity := 4 |}] |}.

Definition notebook : ProductIn :=
  {| name := "Notebook"; description := Some "Ruled, A5";
     price := 10%float; size := Some "L" |}.

Definition bob_order : OrderIn :=
  {| user_id := "Bob";
     items := [{| product_id := "000000000000000000000000"; quantity := 3 |}] |}.

(** One product posted, then one order for it. *)
Definition traded_db : Database :=
  snd (post_orders bob_order (snd (post_products notebook empty_db))).

(** * Properties *)

(** ** Lowercasing and identifiers *)

Lemma ascii_lower_idemp c : ascii_lower (ascii_lower c) = ascii_lower c.
Proof. destruct c as [[] [] [] [] [] [] [] []]; reflexivity. Qed.

Lemma lower_idemp s : lower (lower s) = lower s.
Proof. induction s as [|c s IH]; simpl; [done|]. by rewrite ascii_lower_idemp, IH. Qed.

Lemma lower_length s : String.length (lower s) = String.length s.
Proof. induction s as [|c s IH]; simpl; congruence. Qed.

Lemma is_hex_digit_lower c : is_hex_digit (ascii_lower c) = is_hex_digit c.
Proof. destruct c as [[] [] [] [] [] [] [] []]; reflexivity. Qed.

Lemma all_hex_lower s : all_hex (lower s) = all_hex s.
Proof. induction s as [|c s IH]; simpl; [done|]. by rewrite is_hex_digit_lower, IH. Qed.

(** The identifier parsed from a normalized string renders as that string. *)
Lemma ObjectId_of_str_lower s oid :
  ObjectId_of_str (lower s) = inr oid → str oid = lower s.
Proof.
  unfold ObjectId_of_str. case_match; [|done].
  intros [= <-]. simpl. apply lower_idemp.
Qed.

(** Parsing does not depend on the case of the digits. *)
Lemma ObjectId_of_str_lower_inr s oid :
  ObjectId_of_str s = inr oid → ObjectId_of_str (lower s) = inr oid.
Proof.
  unfold ObjectId_of_str. rewrite lower_length, all_hex_lower, lower_idemp.
  by case_match.
Qed.

Global Instance str_inj : Inj (=) (=) str.
Proof. intros [a] [b]. simpl. by intros ->. Qed.

Global Instance Oid_inj : Inj (=) (=) Oid.
Proof. by intros a b [= ->]. Qed.

Lemma OrderIn_to_lowercase_ids order :
  product_id <$> items (OrderIn_to_lowercase order) = normalized_ids (items order).
Proof. unfold normalized_ids. simpl. by rewrite <-list_fmap_compose. Qed.

Lemma normalized_ids_lower_item its :
  normalized_ids (lower_item <$> its) = normalized_ids its.
Proof.
  unfold normalized_ids. rewrite <-list_fmap_compose.
  apply list_fmap_ext. intros _ item _. simpl. apply lower_idemp.
Qed.

(** What [object_ids] returns on normalized items renders as their ids. *)
Lemma object_ids_str its ids :
  object_ids its = inr ids →
  Forall (fun item => lower (product_id item) = product_id item) its →
  str <$> ids = product_id <$> its.
Proof.
  revert ids. induction its as [|item its IH]; intros ids; simpl.
  - by intros [= <-].
  - destruct (ObjectId_of_str (product_id item)) as [e|oid] eqn:Hoid; [done|].
    destruct (object_ids its) as [e|oids]; [done|].
    intros [= <-] Hlow. apply Forall_cons in Hlow as [Hitem Hlow].
    simpl. f_equal; [|by apply IH].
    rewrite <-Hitem in Hoid. apply ObjectId_of_str_lower in Hoid. congruence.
Qed.

Lemma to_lowercase_items_lower order :
  Forall (fun item => lower (product_id item) = product_id item)
         (items (OrderIn_to_lowercase order)).
Proof.
  simpl. apply Forall_fmap. apply Forall_true. intros item. simpl.
  apply lower_idemp.
Qed.

Lemma object_ids_length its ids :
  object_ids its = inr ids → length ids = length its.
Proof.
  revert ids. induction its as [|item its IH]; intros ids; simpl.
  - by intros [= <-].
  - destruct (ObjectId_of_str _); [done|].
    destruct (object_ids its); [done|].
    intros [= <-]. simpl. f_equal. by apply IH.
Qed.

Lemma ObjectId_of_str_well_formed s :
  well_formed_id s → ObjectId_of_str s = inr (Oid (lower s)).
Proof.
  intros [Hlen Hhex]. unfold ObjectId_of_str. by rewrite Hlen, Hhex.
Qed.

Lemma ObjectId_of_str_inr s oid :
  ObjectId_of_str s = inr oid → well_formed_id s ∧ oid = Oid (lower s).
Proof.
  unfold ObjectId_of_str, well_formed_id.
  destruct (String.length s =? 24)%nat eqn:Hlen; simpl; [|done].
  destruct (all_hex s); [|done].
  intros [= <-]. by apply Nat.eqb_eq in Hlen.
Qed.

Lemma object_ids_well_formed its :
  Forall (fun item => well_formed_id (product_id item)) its →
  object_ids its = inr ((fun item => Oid (lower (product_id item))) <$> its).
Proof.
  induction 1 as [|item its Hwf _ IH]; simpl; [done|].
  by rewrite (ObjectId_of_str_well_formed _ Hwf), IH.
Qed.

Lemma well_formed_id_lower s : well_formed_id s → well_formed_id (lower s).
Proof.
  intros [Hlen Hhex]. split; [by rewrite lower_length|by rewrite all_hex_lower].
Qed.

(** ** The price map *)

Section price_map.
Implicit Types (found coll : list ProductDoc) (ids : list ObjectId).
Implicit Types (m : gmap string float).

Lemma price_map_foldl_dom m found :
  dom (foldl add_price m found)
  = dom m ∪ list_to_set (str <$> (product_oid <$> found)).
Proof.
  revert m. induction found as [|p found IH]; intros m; simpl.
  - by rewrite (right_id_L ∅ (∪)).
  - rewrite IH. unfold add_price. rewrite dom_insert_L.
    by rewrite (comm_L (∪) {[_]} (dom m)), (assoc_L (∪)).
Qed.

Lemma price_map_foldl_notin m found k :
  k ∉ str <$> (product_oid <$> found) → foldl add_price m found !! k = m !! k.
Proof.
  revert m. induction found as [|p found IH]; intros m Hk; simpl; [done|].
  rewrite !fmap_cons, not_elem_of_cons in Hk. destruct Hk as [Hne Hk].
  rewrite IH by done. unfold add_price. by rewrite lookup_insert_ne.
Qed.

Lemma price_map_foldl_lookup m found p :
  NoDup (product_oid <$> found) → p ∈ found →
  foldl add_price m found !! str (product_oid p)
  = Some (price (product_fields p)).
Proof.
  revert m. induction found as [|q found IH]; intros m Hnd Hp; simpl.
  - by apply elem_of_nil in Hp.
  - rewrite fmap_cons in Hnd. apply NoDup_cons in Hnd as [Hq Hnd].
    apply elem_of_cons in Hp as [->|Hp]; [|by apply IH].
    rewrite price_map_foldl_notin.
    + unfold add_price. by rewrite lookup_insert_eq.
    + by rewrite (list_elem_of_fmap_inj str).
Qed.

Lemma price_map_of_lookup found p :
  NoDup (product_oid <$> found) → p ∈ found →
  price_map_of found !! str (product_oid p) = Some (price (product_fields p)).
Proof. apply price_map_foldl_lookup. Qed.

Lemma price_map_of_size found :
  NoDup (product_oid <$> found) →
  base.size (price_map_of found) = length found.
Proof.
  intros Hnd. rewrite <-size_dom.
  unfold price_map_of. rewrite (price_map_foldl_dom ∅ found).
  rewrite dom_empty_L, (left_id_L ∅ (∪)).
  rewrite size_list_to_set by by apply (NoDup_fmap_2 str).
  by rewrite !length_fmap.
Qed.

(** The documents [find] returns for [$in]: those of the requested ids
    the store holds, each once. *)
Lemma find_id_in_ids ids coll :
  product_oid <$> find_id_in ids coll
  = filter (fun oid => oid ∈ ids) (product_oid <$> coll).
Proof.
  unfold find_id_in. induction coll as [|p coll IH]; [done|].
  rewrite fmap_cons, !filter_cons.
  destruct (decide (product_oid p ∈ ids)); [rewrite fmap_cons|]; by rewrite IH.
Qed.

Lemma find_id_in_NoDup ids coll :
  NoDup (product_oid <$> coll) → NoDup (product_oid <$> find_id_in ids coll).
Proof. intros Hnd. rewrite find_id_in_ids. by apply NoDup_filter. Qed.

Lemma find_id_in_length ids coll :
  NoDup (product_oid <$> coll) →
  (length (find_id_in ids coll) ≤ length ids)%nat.
Proof.
  intros Hnd.
  rewrite <-(length_fmap product_oid (find_id_in ids coll)).
  apply submseteq_length, NoDup_submseteq.
  - by apply find_id_in_NoDup.
  - intros oid. rewrite find_id_in_ids, list_elem_of_filter. tauto.
Qed.

Lemma to_list_find_id_in ids coll :
  NoDup (product_oid <$> coll) →
  to_list (length ids) (find_id_in ids coll) = find_id_in ids coll.
Proof. intros Hnd. apply take_ge. by apply find_id_in_length. Qed.

(** The count test of [create_order] passes exactly when the requested
    ids are pairwise distinct and all held by the store. *)
Lemma find_id_in_length_eq ids coll :
  NoDup (product_oid <$> coll) →
  length (find_id_in ids coll) = length ids
  ↔ NoDup ids ∧ Forall (fun oid => oid ∈ product_oid <$> coll) ids.
Proof.
  intros Hnd.
  assert (Hsub : product_oid <$> find_id_in ids coll ⊆+ ids).
  { apply NoDup_submseteq; [by apply find_id_in_NoDup|].
    intros oid. rewrite find_id_in_ids, list_elem_of_filter. tauto. }
  rewrite <-(length_fmap product_oid (find_id_in ids coll)). split.
  - intros Hlen.
    assert (Hperm : product_oid <$> find_id_in ids coll ≡ₚ ids).
    { apply submseteq_length_Permutation; [done|lia]. }
    split.
    + rewrite <-Hperm. by apply find_id_in_NoDup.
    + apply Forall_forall. intros oid Hin. rewrite <-Hperm in Hin.
      rewrite find_id_in_ids, list_elem_of_filter in Hin. tauto.
  - intros [Hids Hall]. apply Nat.le_antisymm; [by apply submseteq_length|].
    apply submseteq_length, NoDup_submseteq; [done|].
    intros oid Hin. rewrite find_id_in_ids, list_elem_of_filter.
    split; [done|]. by eapply Forall_forall in Hall.
Qed.

Lemma price_map_size_eq ids coll :
  NoDup (product_oid <$> coll) →
  base.size (price_map_of (to_list (length ids) (find_id_in ids coll)))
  = length ids
  ↔ NoDup ids ∧ Forall (fun oid => oid ∈ product_oid <$> coll) ids.
Proof.
  intros Hnd. rewrite to_list_find_id_in by done.
  rewrite price_map_of_size by by apply find_id_in_NoDup.
  by apply find_id_in_length_eq.
Qed.

Lemma price_map_lookup_found ids coll p :
  NoDup (product_oid <$> coll) → p ∈ coll → product_oid p ∈ ids →
  price_map_of (to_list (length ids) (find_id_in ids coll))
    !! str (product_oid p)
  = Some (price (product_fields p)).
Proof.
  intros Hnd Hp Hin. rewrite to_list_find_id_in by done.
  apply price_map_of_lookup; [by apply find_id_in_NoDup|].
  unfold find_id_in. by apply list_elem_of_filter.
Qed.
End price_map.

(** ** Order totals *)

Lemma referenced_product_Some db item p :
  referenced_product db item = Some p →
  p ∈ products db ∧ well_formed_id (product_id item)
  ∧ product_oid p = Oid (lower (product_id item)).
Proof.
  unfold referenced_product.
  destruct (ObjectId_of_str (product_id item)) as [e|oid] eqn:Hoid; [done|].
  intros Hhead. apply head_Some_elem_of, list_elem_of_filter in Hhead.
  destruct Hhead as [Hp Hin].
  apply ObjectId_of_str_inr in Hoid as [Hwf ->]. done.
Qed.

Lemma referenced_product_None db item :
  well_formed_id (product_id item) →
  referenced_product db item = None ↔
  Oid (lower (product_id item)) ∉ store_ids db.
Proof.
  intros Hwf. unfold referenced_product, store_ids.
  rewrite (ObjectId_of_str_well_formed _ Hwf). rewrite head_None. split.
  - intros Hnil (p & Heq & Hp)%list_elem_of_fmap.
    assert (p ∈ filter (λ p, product_oid p = Oid (lower (product_id item)))
                (products db)) as Hin by by apply list_elem_of_filter.
    rewrite Hnil in Hin. by apply elem_of_nil in Hin.
  - intros Hnot.
    destruct (filter _ (products db)) as [|p l] eqn:Hf; [done|].
    assert (p ∈ filter (λ p, product_oid p = Oid (lower (product_id item)))
                (products db)) as Hin by (rewrite Hf; left).
    apply list_elem_of_filter in Hin as [Heq Hp].
    exfalso. apply Hnot. rewrite <-Heq. by apply list_elem_of_fmap_2.
Qed.

Section create_order.
Variable db : Database.
Hypothesis Hunique : unique_product_ids db.

Lemma object_ids_requested its :
  Forall (fun item => well_formed_id (product_id item)) its →
  object_ids (lower_item <$> its) = inr (requested_ids its).
Proof.
  intros Hwf. rewrite object_ids_well_formed.
  - unfold requested_ids, normalized_ids. rewrite <-!list_fmap_compose.
    f_equal. apply list_fmap_ext. intros _ item _. simpl. by rewrite lower_idemp.
  - apply Forall_fmap. eapply Forall_impl; [exact Hwf|].
    intros item. simpl. apply well_formed_id_lower.
Qed.

Lemma line_total_referenced its item p :
  item ∈ its → referenced_product db item = Some p →
  line_total
    (price_map_of (to_list (length (requested_ids its))
                           (find_id_in (requested_ids its) (products db))))
    (lower_item item)
  = float_mul_int (price (product_fields p)) (quantity item).
Proof.
  intros Hin (Hp & _ & Hoid)%referenced_product_Some.
  unfold line_total. simpl.
  assert (Hkey : lower (product_id item) = str (product_oid p))
    by by rewrite Hoid.
  rewrite Hkey, price_map_lookup_found; [done|exact Hunique|done|].
  rewrite Hoid. unfold requested_ids, normalized_ids.
  apply list_elem_of_fmap_2, list_elem_of_fmap. by exists item.
Qed.


(** [create_order] once the ids have parsed: the count test, then the
    line totals, then the insert. *)
Lemma create_order_parsed order :
  Forall (fun item => well_formed_id (product_id item)) (items order) →
  create_order order db =
    let ids := requested_ids (items order) in
    let price_map :=
      price_map_of (to_list (length ids) (find_id_in ids (products db))) in
    if decide (NoDup ids ∧ Forall (fun oid => oid ∈ store_ids db) ids)
    then
      match line_totals price_map (lower_item <$> items order) with
      | inl e => (Raised e, db)
      | inr xs =>
          (Return {| order_out_id := str (ObjectId_new (oid_counter db));
                     out_user_id := lower (user_id order);
                     out_items := lower_item <$> items order;
                     total := py_sum xs |},
           snd (insert_one_order (lower (user_id order))
                                 (lower_item <$> items order) (py_sum xs) db))
      end
    else (HTTPException 400 not_found_detail, db).
Proof.
  intros Hwf. unfold create_order. simpl.
  rewrite (object_ids_requested _ Hwf).
  pose proof (price_map_size_eq (requested_ids (items order)) (products db)
                Hunique) as Hsize.
  destruct (decide (base.size _ ≠ _)) as [Hne|Heq];
    destruct (decide (NoDup _ ∧ _)) as [Hok|Hbad]; try done.
  - by apply Hsize in Hok.
  - apply dec_stable in Heq. by apply Hsize in Heq.
Qed.
End create_order.


(** Closed, decidable side conditions are settled by evaluation. *)
Ltac by_evaluation :=
  unfold unique_product_ids;
  apply (bool_decide_unpack _); vm_compute; exact I.

Ltac all_referenced :=
  repeat constructor; eexists; vm_compute; reflexivity.



(** X2: an order that names a product twice is turned down: the map
    holds one price per distinct id, the request list one entry per item. *)
Lemma create_order_repeated_id db order :
  unique_product_ids db →
  Forall (fun item => well_formed_id (product_id item)) (items order) →
  ¬ NoDup (normalized_ids (items order)) →
  create_order order db = (HTTPException 400 not_found_detail, db).
Proof.
  intros Hunique Hwf Hdup.
  rewrite (create_order_parsed db Hunique order Hwf). cbv zeta.
  destruct (decide _) as [[Hnd _]|_]; [|done].
  exfalso. apply Hdup. by apply (NoDup_fmap Oid).
Qed.

Lemma create_order_repeated_id_sample :
  create_order duplicate_order sample_db
  = (HTTPException 400 not_found_detail, sample_db).
Proof.
  apply (create_order_repeated_id sample_db duplicate_order).
  - by_evaluation.
  - repeat constructor.
  - apply (bool_decide_unpack _). vm_compute. exact I.
Defined.

(** C2: the code at the items [{P1, 1}; {P1, 1}].  P1 is stored, yet the
    order is rejected and nothing is inserted. *)
Lemma create_order_duplicate_items :
  Forall (fun item => is_Some (referenced_product sample_db item))
         (items duplicate_order)
  ∧ create_order duplicate_order sample_db
    = (HTTPException 400 "One or more products not found", sample_db).
Proof. split; [all_referenced|]. vm_compute. reflexivity. Qed.

(** C3 (amended): for every store with unique identifiers and every order
    whose product ids are all well formed, an id that resolves to no
    stored product makes [create_order] fail with status 400 and detail
    "One or more products not found", leaving the store as it was; and
    when the normalized ids are pairwise distinct, that failure occurs
    only if some id resolves to no stored product. *)
Theorem create_order_not_found db order :
  unique_product_ids db →
  Forall (fun item => well_formed_id (product_id item)) (items order) →
  (Exists (fun item => referenced_product db item = None) (items order) →
   create_order order db
   = (HTTPException 400 "One or more products not found", db))
  ∧ (NoDup (normalized_ids (items order)) →
     fst (create_order order db)
     = HTTPException 400 "One or more products not found" →
     Exists (fun item => referenced_product db item = None) (items order)).
Proof.
  intros Hunique Hwf.
  rewrite (create_order_parsed db Hunique order Hwf). cbv zeta.
  assert (Hstore : Forall (fun oid => oid ∈ store_ids db)
                          (requested_ids (items order))
                   ↔ Forall (fun item => referenced_product db item ≠ None)
                            (items order)).
  { unfold requested_ids, normalized_ids. rewrite <-list_fmap_compose.
    rewrite Forall_fmap. rewrite !Forall_forall.
    split; intros Hall item Hin; specialize (Hall item Hin);
      pose proof (proj1 (Forall_forall _ _) Hwf item Hin) as Hitem;
      pose proof (referenced_product_None db item Hitem) as Hnone;
      simpl in *.
    - rewrite Hnone. tauto.
    - apply dec_stable. rewrite <-Hnone. done. }
  split.
  - intros Hmissing. destruct (decide _) as [[_ Hall]|_]; [|done].
    exfalso. apply Hstore in Hall.
    apply Exists_exists in Hmissing as (item & Hin & Hnone).
    by eapply Forall_forall in Hall.
  - intros Hdistinct. destruct (decide _) as [Hok|Hbad].
    + destruct (line_totals _ _); discriminate.
    + intros _.
      assert (Hnot : ¬ Forall (fun item => referenced_product db item ≠ None)
                              (items order)).
      { intros Hall. apply Hbad. split.
        - by apply (NoDup_fmap_2 Oid).
        - by apply Hstore. }
      apply not_Forall_Exists in Hnot; [|intros item; apply _].
      eapply Exists_impl; [exact Hnot|]. intros item Hn. simpl in Hn.
      by apply dec_stable in Hn.
Qed.

(** The order [{P1, 1}; {unknown, 1}] is rejected whole. *)
Lemma create_order_not_found_sample :
  create_order missing_order sample_db
  = (HTTPException 400 "One or more products not found", sample_db).
Proof.
  refine (proj1 (create_order_not_found sample_db missing_order _ _) _).
  - by_evaluation.
  - repeat constructor.
  - apply Exists_cons_tl, Exists_cons_hd. vm_compute. reflexivity.
Defined.

(** C3 as stated fails on the message and on malformed ids: the detail
    starts with a capital letter, and an id that is not 24 hexadecimal
    digits, which resolves to no product either, raises [InvalidId]. *)
Lemma create_order_not_found_message :
  (Exists (fun item => referenced_product sample_db item = None)
          (items missing_order)
   ∧ fst (create_order missing_order sample_db)
     ≠ HTTPException 400 "one or more products not found")
  ∧ (Exists (fun item => referenced_product sample_db item = None)
            (items malformed_order)
     ∧ create_order malformed_order sample_db
       = (Raised (InvalidId "not-an-id"), sample_db)).
Proof.
  split; split.
  - apply Exists_cons_tl, Exists_cons_hd. vm_compute. reflexivity.
  - vm_compute. discriminate.
  - apply Exists_cons_hd. vm_compute. reflexivity.
  - vm_compute. reflexivity.
Qed.

(** ** Persistence *)

(** C4: whatever the request, [create_order] (and the endpoint in front
    of it) either returns an order and has appended exactly one document
    to the orders collection, or fails and leaves the database unchanged. *)
Theorem create_order_all_or_nothing body db :
  all_or_nothing db (create_order body db)
  ∧ all_or_nothing db (post_orders body db).
Proof.
  assert (Hcreate : all_or_nothing db (create_order body db)).
  { unfold all_or_nothing, create_order.
    destruct (object_ids _) as [e|ids]; [done|]. cbv zeta.
    destruct (decide _); [done|].
    destruct (line_totals _ _) as [e|xs]; [done|].
    simpl. split; [done|]. by eexists. }
  split; [done|].
  unfold post_orders. by destruct (OrderIn_valid body).
Qed.

(** A successful [create_order] has run [insert_one] once, on the
    normalized order and its total, and answers with the same values. *)
Lemma create_order_Return order db resp db' :
  create_order order db = (Return resp, db') →
  ∃ tot,
    resp = {| order_out_id := str (ObjectId_new (oid_counter db));
              out_user_id := lower (user_id order);
              out_items := lower_item <$> items order;
              total := tot |}
    ∧ db' = snd (insert_one_order (lower (user_id order))
                                  (lower_item <$> items order) tot db).
Proof.
  unfold create_order.
  destruct (object_ids _) as [e|ids]; [done|]. cbv zeta.
  destruct (decide _); [done|].
  destruct (line_totals _ _) as [e|xs]; [done|].
  simpl. intros [= <- <-]. by eexists.
Qed.

(** C9: the body a successful [create_order] returns is the document it
    has just stored: same user id, same normalized items, same total, and
    the identifier the store assigned, as text. *)
Theorem create_order_response order db resp db' :
  create_order order db = (Return resp, db') →
  ∃ doc,
    orders db' = (orders db ++ [doc])%list
    ∧ order_out_id resp = str (order_oid doc)
    ∧ out_user_id resp = order_user_id doc
    ∧ out_items resp = order_items doc
    ∧ total resp = order_total doc
    ∧ order_user_id doc = lower (user_id order)
    ∧ order_items doc = lower_item <$> items order.
Proof.
  intros (tot & -> & ->)%create_order_Return. simpl.
  by eexists.
Qed.

Lemma create_order_response_sample :
  ∃ doc,
    orders (snd (create_order sample_order sample_db))
    = (orders sample_db ++ [doc])%list
    ∧ order_oid doc = ObjectId_new 7
    ∧ order_user_id doc = "alice"
    ∧ order_total doc = 30%float.
Proof.
  destruct (create_order_response sample_order sample_db
              {| order_out_id := "000000000000000000000007";
                 out_user_id := "alice";
                 out_items := lower_item <$> items sample_order;
                 total := 30%float |}
              (snd (create_order sample_order sample_db)))
    as (doc & Hdoc & Hid & Huser & Hitems & Htotal & _).
  - vm_compute. reflexivity.
  - exists doc. split; [exact Hdoc|]. simpl in *.
    split; [by apply (inj str)|]. by split.
Defined.

(** C5 (amended): a request whose items array is empty passes validation
    when its user id is not empty; [create_order] then succeeds and
    stores one order with no items and total 0. *)
Theorem post_orders_empty_items uid db :
  uid ≠ "" →
  post_orders {| user_id := uid; items := [] |} db
  = (Return {| order_out_id := str (ObjectId_new (oid_counter db));
               out_user_id := lower uid;
               out_items := [];
               total := 0%float |},
     {| products := products db;
        orders := orders db ++ [{| order_oid := ObjectId_new (oid_counter db);
                                   order_user_id := lower uid;
                                   order_items := [];
                                   order_total := 0%float |}];
        oid_counter := N.succ (oid_counter db) |}).
Proof.
  intros Huid. unfold post_orders, OrderIn_valid. simpl.
  destruct uid as [|c uid]; [done|]. reflexivity.
Qed.

Lemma post_orders_empty_items_sample :
  ∃ resp db',
    post_orders empty_order sample_db = (Return resp, db')
    ∧ out_items resp = [] ∧ total resp = 0%float
    ∧ length (orders db') = S (length (orders sample_db)).
Proof.
  eexists _, _. split.
  - apply (post_orders_empty_items "Alice" sample_db). discriminate.
  - repeat split.
Defined.

(** C5 as stated fails: the empty order is neither rejected nor dropped. *)
Lemma post_orders_empty_items_accepted :
  items empty_order = []
  ∧ post_orders empty_order sample_db
    = (Return {| order_out_id := "000000000000000000000007";
                 out_user_id := "alice";
                 out_items := [];
                 total := 0%float |},
       {| products := products sample_db;
          orders := [{| order_oid := Oid "000000000000000000000007";
                        order_user_id := "alice";
                        order_items := [];
                        order_total := 0%float |}];
          oid_counter := 8 |}).
Proof. split; [reflexivity|]. vm_compute. reflexivity. Qed.

(** ** Listing orders *)

Lemma list_orders_unfold uid limit offset db :
  list_orders uid limit offset db
  = render_order <$> take limit (drop offset (sort_orders (orders_of uid db))).
Proof.
  unfold list_orders, to_list, orders_of.
  by rewrite take_take, Nat.min_id.
Qed.

Lemma elem_of_page {A} (l : list A) (x : A) n limit offset :
  l !! n = Some x → offset ≤ n < offset + limit →
  x ∈ take limit (drop offset l).
Proof.
  intros Hn [Hlo Hhi]. apply list_elem_of_lookup. exists (n - offset).
  rewrite lookup_take_lt by lia. rewrite lookup_drop.
  by replace (offset + (n - offset)) with n by lia.
Qed.

(** C6 (amended): user ids match without regard to case.  After a
    successful [create_order], listing under any string with the same
    lowercase form as the order's user id gives, page for page, what
    listing under the user id itself gives; the created order sits at
    some position [n] of that listing, at most the number of orders the
    user already had, and every page covering [n] returns it; so does the
    first page whenever the user had fewer than [limit] orders. *)
Theorem list_orders_case_insensitive order db resp db' v :
  create_order order db = (Return resp, db') →
  lower v = lower (user_id order) →
  (∀ limit offset,
     list_orders v limit offset db'
     = list_orders (user_id order) limit offset db')
  ∧ (∃ n, n ≤ length (orders_of v db)
          ∧ ∀ limit offset, offset ≤ n < offset + limit →
                            resp ∈ list_orders v limit offset db')
  ∧ (∀ limit, length (orders_of v db) < limit →
              resp ∈ list_orders v limit 0 db').
Proof.
  intros Hrun Hv.
  assert (Hsame : ∀ limit offset,
            list_orders v limit offset db'
            = list_orders (user_id order) limit offset db').
  { intros limit offset. unfold list_orders. by rewrite Hv. }
  apply create_order_Return in Hrun as (tot & -> & ->).
  set (doc := {| order_oid := ObjectId_new (oid_counter db);
                 order_user_id := lower (user_id order);
                 order_items := lower_item <$> items order;
                 order_total := tot |}).
  set (db' := snd (insert_one_order _ _ _ db)).
  set (resp := {| order_out_id := _; total := tot |}).
  assert (Hresp : resp = render_order doc) by done.
  assert (Hmine : orders_of v db' = (orders_of v db ++ [doc])%list).
  { unfold orders_of. simpl. rewrite filter_app, filter_cons.
    rewrite decide_True by (simpl; congruence). done. }
  assert (Hin : doc ∈ sort_orders (orders_of v db')).
  { unfold sort_orders. rewrite merge_sort_Permutation, Hmine.
    apply elem_of_app. right. by left. }
  apply list_elem_of_lookup in Hin as [n Hn].
  assert (Hlen : n ≤ length (orders_of v db)).
  { apply lookup_lt_Some in Hn. unfold sort_orders in Hn.
    rewrite merge_sort_Permutation, Hmine, length_app in Hn. simpl in Hn. lia. }
  assert (Hpage : ∀ limit offset, offset ≤ n < offset + limit →
                    resp ∈ list_orders v limit offset db').
  { intros limit offset Hcover. rewrite list_orders_unfold, Hresp.
    apply list_elem_of_fmap_2. by eapply elem_of_page. }
  split; [exact Hsame|]. split.
  - exists n. by split.
  - intros limit Hfew. apply Hpage. lia.
Qed.

(** Created as "Alice", listed as "ALICE". *)
Lemma list_orders_case_insensitive_sample :
  ∃ resp db',
    create_order sample_order sample_db = (Return resp, db')
    ∧ resp ∈ list_orders "ALICE" 10 0 db'.
Proof.
  destruct (create_order sample_order sample_db) as [out db'] eqn:Hrun.
  destruct out as [resp| | |]; try (vm_compute in Hrun; discriminate).
  exists resp, db'. split; [reflexivity|].
  refine (proj2 (proj2 (list_orders_case_insensitive
                          sample_order sample_db resp db' "ALICE" Hrun _))
                10 _).
  - vm_compute. reflexivity.
  - vm_compute. lia.
Defined.

(** C6 as stated fails once the user has [limit] orders or more: the
    listing is a page, and the new order, last in identifier order, is
    not on the first one. *)
Lemma list_orders_created_beyond_page :
  ∃ resp db',
    create_order sample_order busy_db = (Return resp, db')
    ∧ list_orders "alice" 10 0 db' = render_order <$> orders busy_db
    ∧ resp ∉ list_orders "alice" 10 0 db'.
Proof.
  eexists _, _. split; [vm_compute; reflexivity|].
  split; [vm_compute; reflexivity|].
  intros Hin. apply (list_elem_of_fmap_2 order_out_id) in Hin.
  revert Hin. apply (bool_decide_unpack _). vm_compute. exact I.
Qed.

(** ** Listing products *)

Global Instance product_le_trans : Transitive product_le.
Proof. intros p q r. unfold product_le, oid_le. apply transitivity. Qed.

Global Instance product_le_total : Total product_le.
Proof. intros p q. unfold product_le, oid_le. apply String.le_total. Qed.

Lemma StronglySorted_take {A} (R : relation A) (l : list A) n :
  StronglySorted R l → StronglySorted R (take n l).
Proof.
  intros Hl. rewrite <-(take_drop n l) in Hl.
  by apply StronglySorted_app_1_l in Hl.
Qed.

Lemma StronglySorted_drop {A} (R : relation A) (l : list A) n :
  StronglySorted R l → StronglySorted R (drop n l).
Proof.
  intros Hl. rewrite <-(take_drop n l) in Hl.
  by apply StronglySorted_app_1_r in Hl.
Qed.

Lemma elem_of_page_inv {A} (l : list A) (x : A) limit offset :
  x ∈ take limit (drop offset l) →
  ∃ n, l !! n = Some x ∧ offset ≤ n < offset + limit.
Proof.
  intros [i Hi]%list_elem_of_lookup.
  apply lookup_take_Some in Hi as [Hi Hlt]. rewrite lookup_drop in Hi.
  exists (offset + i). split; [done|lia].
Qed.

Lemma list_products_unfold name_param size_param limit offset db :
  list_products name_param size_param limit offset db
  = (fun matching => render_product <$> product_page matching limit offset)
      <$> find_products (build_query name_param size_param) (products db).
Proof.
  unfold list_products, product_page, to_list.
  destruct (find_products _ _) as [matching|]; simpl; [|done].
  by rewrite take_take, Nat.min_id.
Qed.

Lemma find_products_sublist query coll matching :
  find_products query coll = Some matching → matching `sublist_of` coll.
Proof.
  unfold find_products. destruct (query_name query) as [pattern|].
  - destruct (compile_regex pattern); [|done].
    intros [= <-]. apply sublist_filter.
  - intros [= <-]. apply sublist_filter.
Qed.

Lemma sort_products_NoDup db query matching :
  unique_product_ids db →
  find_products query (products db) = Some matching →
  NoDup (product_oid <$> sort_products matching).
Proof.
  intros Hunique Hfind. unfold sort_products.
  rewrite merge_sort_Permutation.
  apply (sublist_NoDup _ (store_ids db)); [exact Hunique|].
  unfold store_ids. by eapply fmap_sublist, find_products_sublist.
Qed.

Lemma sort_products_sorted matching :
  StronglySorted product_le (sort_products matching).
Proof. apply StronglySorted_merge_sort; apply _. Qed.

Lemma render_product_inj_id p q :
  render_product p = render_product q → product_oid p = product_oid q.
Proof. intros [= Hid _]. by apply (inj str). Qed.

(** A page: at most [limit] records, those at positions [offset] and up
    of the matching documents in ascending identifier order, and disjoint
    from the page that follows. *)
Lemma list_products_page db name_param size_param limit offset page :
  unique_product_ids db →
  list_products name_param size_param limit offset db = Some page →
  length page ≤ limit
  ∧ (∃ matching,
       find_products (build_query name_param size_param) (products db)
       = Some matching
       ∧ page = render_product
                  <$> take limit (drop offset (sort_products matching)))
  ∧ StronglySorted String.le (product_out_id <$> page)
  ∧ (∀ next,
       list_products name_param size_param limit (offset + limit) db
       = Some next →
       ∀ x, x ∈ page → x ∉ next).
Proof.
  intros Hunique. rewrite list_products_unfold.
  destruct (find_products _ _) as [matching|] eqn:Hfind; [|done].
  simpl. intros [= <-]. unfold product_page.
  pose proof (sort_products_NoDup db _ _ Hunique Hfind) as Hnd.
  pose proof (sort_products_sorted matching) as Hsorted.
  set (sorted := sort_products matching) in *.
  split; [|split; [|split]].
  - rewrite length_fmap, length_take. lia.
  - by exists matching.
  - rewrite <-list_fmap_compose.
    eapply StronglySorted_fmap;
      [|by apply StronglySorted_take, StronglySorted_drop].
    intros p q Hpq. exact Hpq.
  - intros next. rewrite list_products_unfold, Hfind. simpl.
    intros [= <-] x Hx Hnext. unfold product_page in Hnext.
    fold sorted in Hnext.
    apply list_elem_of_fmap in Hx as (p & -> & Hp).
    apply list_elem_of_fmap in Hnext as (q & Hpq & Hq).
    apply render_product_inj_id in Hpq.
    apply elem_of_page_inv in Hp as (i & Hi & Hirange).
    apply elem_of_page_inv in Hq as (j & Hj & Hjrange).
    assert (i = j); [|lia].
    apply (NoDup_lookup (product_oid <$> sorted) i j (product_oid p) Hnd).
    + by rewrite list_lookup_fmap, Hi.
    + by rewrite list_lookup_fmap, Hj, Hpq.
Qed.

Lemma find_products_all coll :
  find_products (build_query None None) coll = Some coll.
Proof.
  unfold find_products. simpl. f_equal.
  induction coll as [|p coll IH]; [done|].
  rewrite filter_cons. simpl. by rewrite IH.
Qed.

(** Fifteen products, pages of ten: ten records, then the five left. *)
Lemma list_products_fifteen db :
  length (products db) = 15 →
  ∃ first second,
    list_products None None 10 0 db = Some first
    ∧ list_products None None 10 10 db = Some second
    ∧ length first = 10 ∧ length second = 5
    ∧ (first ++ second)%list = render_product <$> sort_products (products db).
Proof.
  intros Hlen. rewrite !list_products_unfold, find_products_all. simpl.
  unfold product_page.
  assert (Hsorted : length (sort_products (products db)) = 15).
  { unfold sort_products. by rewrite merge_sort_Permutation. }
  eexists _, _. split; [reflexivity|]. split; [reflexivity|].
  rewrite !length_fmap, !length_take, !length_drop, Hsorted.
  split; [done|]. split; [done|].
  rewrite <-fmap_app. f_equal. rewrite drop_0.
  rewrite (take_ge (drop 10 _)) by (rewrite length_drop; lia).
  apply take_drop.
Qed.

(** C7: [list_products] honours [limit] and [offset] over the matching
    products in ascending identifier order, for every store with unique
    identifiers: a page holds at most [limit] records, namely those that
    follow the first [offset] ones; its identifiers ascend; it shares no
    record with the next page.  With fifteen stored products, the page
    at offset 0 of limit 10 holds ten records, the page at offset 10
    holds the five that remain, and the two do not overlap. *)
Theorem list_products_pagination :
  (∀ db name_param size_param limit offset page,
     unique_product_ids db →
     list_products name_param size_param limit offset db = Some page →
     length page ≤ limit
     ∧ (∃ matching,
          find_products (build_query name_param size_param) (products db)
          = Some matching
          ∧ page = render_product
                     <$> take limit (drop offset (sort_products matching)))
     ∧ StronglySorted String.le (product_out_id <$> page)
     ∧ (∀ next,
          list_products name_param size_param limit (offset + limit) db
          = Some next →
          ∀ x, x ∈ page → x ∉ next))
  ∧ (∀ db,
       unique_product_ids db →
       length (products db) = 15 →
       ∃ first second,
         list_products None None 10 0 db = Some first
         ∧ list_products None None 10 10 db = Some second
         ∧ length first = 10 ∧ length second = 5
         ∧ (first ++ second)%list
           = render_product <$> sort_products (products db)
         ∧ ∀ x, x ∈ first → x ∉ second).
Proof.
  split; [exact list_products_page|].
  intros db Hunique Hlen.
  destruct (list_products_fifteen db Hlen)
    as (first & second & Hfirst & Hsecond & Hlen1 & Hlen2 & Hall).
  exists first, second. repeat (split; [done|]).
  destruct (list_products_page db None None 10 0 first Hunique Hfirst)
    as (_ & _ & _ & Hdisjoint).
  by apply Hdisjoint.
Qed.

Lemma list_products_pagination_fifteen :
  ∃ first second,
    list_products None None 10 0 fifteen_db = Some first
    ∧ list_products None None 10 10 fifteen_db = Some second
    ∧ length first = 10 ∧ length second = 5
    ∧ (first ++ second)%list
      = render_product <$> sort_products (products fifteen_db)
    ∧ ∀ x, x ∈ first → x ∉ second.
Proof.
  apply (proj2 list_products_pagination fifteen_db).
  - by_evaluation.
  - reflexivity.
Defined.

(** ** The name filter *)

Lemma is_prefix_spec p s : is_prefix p s = true ↔ ∃ post, s = p +:+ post.
Proof.
  revert s. induction p as [|a p IH]; intros s; simpl.
  - split; [by exists s|done].
  - destruct s as [|b s]; simpl.
    + split; [done|]. by intros [post ?].
    + rewrite andb_true_iff, IH, Ascii.eqb_eq. split.
      * intros [-> [post ->]]. by exists post.
      * intros [post [= -> ->]]. split; [done|]. by exists post.
Qed.

Lemma contains_spec needle hay :
  contains needle hay = true ↔ ∃ pre post, hay = pre +:+ needle +:+ post.
Proof.
  induction hay as [|c hay IH]; simpl; rewrite orb_true_iff, is_prefix_spec.
  - split.
    + intros [[post Hpost]|?]; [|done]. by exists "", post.
    + intros (pre & post & Heq). left.
      destruct pre; simpl in Heq; [by exists post|done].
  - rewrite IH. split.
    + intros [[post Hpost]|(pre & post & ->)].
      * by exists "", post.
      * by exists (String c pre), post.
    + intros (pre & post & Heq). destruct pre as [|d pre]; simpl in Heq.
      * left. by exists post.
      * right. injection Heq as -> ->. by exists pre, post.
Qed.

Lemma compile_regex_literal s :
  no_meta s = true → compile_regex s = Some (literal_atoms s).
Proof.
  induction s as [|c s IH]; simpl; [done|].
  rewrite andb_true_iff, negb_true_iff. intros [Hc Hs].
  rewrite (IH Hs), Hc.
  destruct (Ascii.eqb c ".") eqn:Hdot; [|done].
  apply Ascii.eqb_eq in Hdot as ->. discriminate.
Qed.

Lemma match_here_literal s hay :
  match_here (literal_atoms s) hay = is_prefix (lower s) (lower hay).
Proof.
  revert hay. induction s as [|c s IH]; intros hay; simpl; [done|].
  destruct hay as [|d hay]; simpl; [done|]. by rewrite IH.
Qed.

Lemma regex_search_literal s hay :
  regex_search (literal_atoms s) hay = icontains s hay.
Proof.
  unfold icontains. induction hay as [|d hay IH]; simpl.
  - by rewrite (match_here_literal s "").
  - by rewrite (match_here_literal s (String d hay)), IH.
Qed.

(** C8 (amended): [name] is matched as a case-insensitive regular
    expression.  For a non-empty [name] free of metacharacters the
    endpoint returns, within the requested page and among the products
    that pass the size filter, exactly those whose name contains [name]
    as a literal substring, case ignored. *)
Theorem list_products_literal_name db name_param size_param limit offset :
  name_param ≠ "" →
  no_meta name_param = true →
  list_products (Some name_param) size_param limit offset db
  = Some (render_product
            <$> take limit
                  (drop offset
                     (sort_products
                        (filter
                           (fun p =>
                              icontains name_param (name (product_fields p))
                              && size_matches (size_query size_param) p)
                           (products db)))))
  ∧ ∀ hay, icontains name_param hay = true
           ↔ ∃ pre post, lower hay = pre +:+ lower name_param +:+ post.
Proof.
  intros Hne Hlit. split.
  - rewrite list_products_unfold. unfold find_products, product_page. simpl.
    destruct name_param as [|c rest]; [done|]. simpl truthy. cbv iota.
    rewrite (compile_regex_literal _ Hlit). simpl. do 5 f_equal.
    apply list_filter_iff. intros p. simpl.
    by rewrite (regex_search_literal (String c rest)).
  - intros hay. apply contains_spec.
Qed.

Lemma list_products_literal_name_sample :
  list_products (Some "B") None 10 0 regex_db
  = Some [render_product (sample_product P1 "abc" 1%float)].
Proof.
  rewrite (proj1 (list_products_literal_name regex_db "B" None 10 0
                    ltac:(discriminate) eq_refl)).
  vm_compute. reflexivity.
Defined.

(** C8 as stated fails: [.] in [name] stands for any character, so
    "a.c" also selects "abc", which does not contain it. *)
Lemma list_products_name_is_regex :
  list_products (Some "a.c") None 10 0 regex_db
  = Some [render_product (sample_product P1 "abc" 1%float);
          render_product (sample_product P2 "a.c" 1%float)]
  ∧ icontains "a.c" "abc" = false.
Proof. split; vm_compute; reflexivity. Qed.

(** ** Empty filters *)

(** C10: an empty [name] or [size] parameter is dropped like an absent
    one: the listing is the one without that filter, and with both empty
    it is the page of all products. *)
Theorem list_products_empty_filters db name_param size_param limit offset :
  list_products (Some "") size_param limit offset db
  = list_products None size_param limit offset db
  ∧ list_products name_param (Some "") limit offset db
    = list_products name_param None limit offset db
  ∧ list_products (Some "") (Some "") limit offset db
    = Some (render_product
              <$> take limit (drop offset (sort_products (products db)))).
Proof.
  split; [reflexivity|]. split; [reflexivity|].
  rewrite list_products_unfold.
  change (build_query (Some "") (Some "")) with (build_query None None).
  by rewrite find_products_all.
Qed.

(** ** The price lookup cannot fail *)

Lemma object_ids_inl its e :
  object_ids its = inl e → ∃ s, e = InvalidId s.
Proof.
  induction its as [|item its IH]; simpl; [done|].
  destruct (ObjectId_of_str (product_id item)) as [e'|oid] eqn:Hoid.
  - intros [= <-]. unfold ObjectId_of_str in Hoid.
    destruct (_ && _); [done|]. injection Hoid as <-. by eexists.
  - destruct (object_ids its) as [e'|oids]; [|done].
    intros [= <-]. by apply IH.
Qed.

Lemma object_ids_inr_well_formed its ids :
  object_ids its = inr ids →
  Forall (fun item => well_formed_id (product_id item)) its.
Proof.
  revert ids. induction its as [|item its IH]; intros ids; simpl; [done|].
  destruct (ObjectId_of_str (product_id item)) as [e|oid] eqn:Hoid; [done|].
  destruct (object_ids its) as [e|oids]; [done|].
  intros _. constructor; [|by eapply IH].
  by apply ObjectId_of_str_inr in Hoid as [Hwf _].
Qed.

Lemma well_formed_id_lower_inv s : well_formed_id (lower s) → well_formed_id s.
Proof.
  intros [Hlen Hhex]. rewrite lower_length in Hlen.
  rewrite all_hex_lower in Hhex. by split.
Qed.

Lemma line_totals_raises pm its e :
  Forall (fun item => ∃ x n, line_total pm item = float_mul_int x n) its →
  line_totals pm its = inl e → e = OverflowError.
Proof.
  induction 1 as [|item its (x & n & Hline) _ IH]; simpl; [done|].
  rewrite Hline. unfold float_mul_int.
  destruct (float_of_int n); [|by intros [= <-]].
  destruct (line_totals pm its) as [e'|xs]; [|done].
  intros [= <-]. by apply IH.
Qed.

(** X1: once the count test has passed, every normalized id is a key of
    the price map: [create_order] never raises [KeyError]. *)
Theorem create_order_no_KeyError db order key :
  unique_product_ids db →
  fst (create_order order db) ≠ Raised (KeyError key).
Proof.
  intros Hunique.
  destruct (object_ids (items (OrderIn_to_lowercase order)))
    as [e|ids] eqn:Hids.
  - unfold create_order. rewrite Hids. simpl.
    apply object_ids_inl in Hids as [s ->]. discriminate.
  - assert (Hwf : Forall (fun item => well_formed_id (product_id item))
                         (items order)).
    { apply object_ids_inr_well_formed in Hids.
      change (items (OrderIn_to_lowercase order))
        with (lower_item <$> items order) in Hids.
      rewrite Forall_fmap in Hids. eapply Forall_impl; [exact Hids|].
      intros item. simpl. apply well_formed_id_lower_inv. }
    rewrite (create_order_parsed db Hunique order Hwf). cbv zeta.
    destruct (decide _) as [[_ Hall]|_]; [|discriminate].
    destruct (line_totals _ _) as [e|xs] eqn:Hlines; [|discriminate].
    simpl. apply line_totals_raises in Hlines as ->; [discriminate|].
    apply Forall_fmap, Forall_forall. intros item Hin. simpl.
    destruct (referenced_product db item) as [p|] eqn:Hp.
    + exists (price (product_fields p)), (quantity item).
      by apply line_total_referenced.
    + exfalso.
      apply referenced_product_None in Hp;
        [|by eapply Forall_forall in Hwf].
      apply Hp. eapply Forall_forall in Hall; [exact Hall|].
      unfold requested_ids, normalized_ids.
      apply list_elem_of_fmap_2, list_elem_of_fmap. by exists item.
Qed.

Lemma create_order_no_KeyError_sample :
  fst (create_order sample_order sample_db)
  ≠ Raised (KeyError "64b7f0c2a1d3e4f5a6b7c8d1").
Proof. apply create_order_no_KeyError. by_evaluation. Defined.

(** * Further properties *)

(** ** Outcomes of [create_order] *)


Lemma requested_ids_in_store db its :
  Forall (fun item => well_formed_id (product_id item)) its →
  Forall (fun oid => oid ∈ store_ids db) (requested_ids its) →
  Forall (fun item => is_Some (referenced_product db item)) its.
Proof.
  intros Hwf Hall. apply Forall_forall. intros item Hin.
  destruct (referenced_product db item) as [p|] eqn:Hp; [by eexists|].
  exfalso. apply referenced_product_None in Hp;
    [|by eapply Forall_forall in Hwf].
  apply Hp. eapply Forall_forall in Hall; [exact Hall|].
  unfold requested_ids, normalized_ids.
  apply list_elem_of_fmap_2, list_elem_of_fmap. by exists item.
Qed.

Lemma line_totals_inr_priced db pm its xs :
  Forall (fun item => ∃ p, referenced_product db item = Some p
                           ∧ line_total pm (lower_item item)
                             = float_mul_int (price (product_fields p))
                                             (quantity item)) its →
  line_totals pm (lower_item <$> its) = inr xs →
  mapM (priced_line db) its = Some xs
  ∧ Forall (fun item => is_Some (float_of_int (quantity item))) its.
Proof.
  intros Hall. revert xs.
  induction Hall as [|item its (p & Hp & Hline) _ IH]; intros xs.
  - simpl. by intros [= <-].
  - rewrite fmap_cons. simpl. rewrite Hline. unfold float_mul_int.
    destruct (float_of_int (quantity item)) as [q|] eqn:Hq; [|done].
    destruct (line_totals pm (lower_item <$> its)) as [e|ys]; [done|].
    intros [= <-]. destruct (IH ys eq_refl) as [Hys Hconv].
    split; [|by constructor].
    assert (Hx : priced_line db item
                 = Some (PrimFloat.mul (price (product_fields p)) q)).
    { unfold priced_line. by rewrite Hp, Hq. }
    simpl. by rewrite Hx, Hys.
Qed.

Lemma line_totals_overflow pm its :
  Forall (fun item => ∃ x, line_total pm (lower_item item)
                           = float_mul_int x (quantity item)) its →
  Exists (fun item => float_of_int (quantity item) = None) its →
  line_totals pm (lower_item <$> its) = inl OverflowError.
Proof.
  induction 1 as [|item its (x & Hline) Hrest IH]; intros Hex.
  - by apply Exists_nil in Hex.
  - rewrite fmap_cons. simpl. rewrite Hline. unfold float_mul_int.
    destruct (float_of_int (quantity item)) as [q|] eqn:Hq; [|done].
    apply Exists_cons in Hex as [Hhere|Hlater]; [congruence|].
    by rewrite (IH Hlater).
Qed.

Lemma object_ids_lowercase_well_formed order ids :
  object_ids (items (OrderIn_to_lowercase order)) = inr ids →
  Forall (fun item => well_formed_id (product_id item)) (items order).
Proof.
  intros Hids. apply object_ids_inr_well_formed in Hids.
  change (items (OrderIn_to_lowercase order))
    with (lower_item <$> items order) in Hids.
  rewrite Forall_fmap in Hids. eapply Forall_impl; [exact Hids|].
  intros item. simpl. apply well_formed_id_lower_inv.
Qed.

(** X3: an order that [create_order] accepts is a sound one.  When the
    call returns, every product id is well formed, the normalized ids
    are pairwise distinct, every item refers to a stored product, every
    quantity converts to a float, and the total returned is the sum of
    the priced lines. *)
Theorem create_order_Return_sound db order resp db' :
  unique_product_ids db →
  create_order order db = (Return resp, db') →
  Forall (fun item => well_formed_id (product_id item)) (items order)
  ∧ NoDup (normalized_ids (items order))
  ∧ Forall (fun item => is_Some (referenced_product db item)) (items order)
  ∧ Forall (fun item => is_Some (float_of_int (quantity item))) (items order)
  ∧ priced_total db (items order) = Some (total resp).
Proof.
  intros Hunique Hrun.
  destruct (object_ids (items (OrderIn_to_lowercase order)))
    as [e|ids] eqn:Hids.
  { unfold create_order in Hrun. by rewrite Hids in Hrun. }
  pose proof (object_ids_lowercase_well_formed _ _ Hids) as Hwf.
  rewrite (create_order_parsed db Hunique order Hwf) in Hrun. cbv zeta in Hrun.
  destruct (decide _) as [[Hnd Hall]|_]; [|done].
  destruct (line_totals _ _) as [e|xs] eqn:Hlines; [done|].
  injection Hrun as <- <-.
  pose proof (requested_ids_in_store db _ Hwf Hall) as Href.
  apply (line_totals_inr_priced db) in Hlines as [Hxs Hconv].
  - repeat split; try done.
    + by apply (NoDup_fmap Oid).
    + unfold priced_total. by rewrite Hxs.
  - apply Forall_forall. intros item Hin.
    pose proof (proj1 (Forall_forall _ _) Href item Hin) as [p Hp].
    exists p. split; [done|]. by apply line_total_referenced.
Qed.

Lemma create_order_Return_sound_sample :
  NoDup (normalized_ids (items sample_order))
  ∧ Forall (fun item => is_Some (referenced_product sample_db item))
           (items sample_order).
Proof.
  destruct (create_order sample_order sample_db) as [out db'] eqn:Hrun.
  destruct out as [resp| | |]; try (vm_compute in Hrun; discriminate).
  destruct (create_order_Return_sound sample_db sample_order resp db')
    as (_ & Hnd & Href & _).
  - by_evaluation.
  - exact Hrun.
  - by split.
Defined.




(** X5: a quantity beyond the range of a float stops an otherwise sound
    order.  When the store has unique identifiers, every item refers to a
    stored product and the normalized ids are pairwise distinct, a
    quantity that does not convert makes [create_order] raise
    [OverflowError] and store nothing. *)
Theorem create_order_overflow db order :
  unique_product_ids db →
  NoDup (normalized_ids (items order)) →
  Forall (fun item => is_Some (referenced_product db item)) (items order) →
  Exists (fun item => float_of_int (quantity item) = None) (items order) →
  create_order order db = (Raised OverflowError, db).
Proof.
  intros Hunique Hdistinct Href Hbig.
  assert (Hwf : Forall (fun item => well_formed_id (product_id item))
                       (items order)).
  { eapply Forall_impl; [exact Href|]. intros item [p Hp].
    by apply referenced_product_Some in Hp as (_ & Hwf & _). }
  rewrite (create_order_parsed db Hunique order Hwf). cbv zeta.
  rewrite decide_True.
  - rewrite line_totals_overflow; [done| |done].
    apply Forall_forall. intros item Hin.
    pose proof (proj1 (Forall_forall _ _) Href item Hin) as [p Hp].
    exists (price (product_fields p)). by apply line_total_referenced.
  - split.
    + unfold requested_ids. apply (NoDup_fmap_2 Oid), Hdistinct.
    + unfold requested_ids, normalized_ids. rewrite <-list_fmap_compose.
      apply Forall_fmap. eapply Forall_impl; [exact Href|].
      intros item [p (Hp & _ & Hoid)%referenced_product_Some]. simpl.
      rewrite <-Hoid. by apply list_elem_of_fmap_2.
Qed.

Lemma create_order_overflow_sample :
  create_order huge_order sample_db = (Raised OverflowError, sample_db).
Proof.
  apply (create_order_overflow sample_db huge_order).
  - by_evaluation.
  - by_evaluation.
  - all_referenced.
  - apply Exists_cons_hd. vm_compute. reflexivity.
Defined.

Lemma lower_item_idemp item : lower_item (lower_item item) = lower_item item.
Proof. unfold lower_item. simpl. by rewrite lower_idemp. Qed.

Lemma OrderIn_to_lowercase_idemp order :
  OrderIn_to_lowercase (OrderIn_to_lowercase order) = OrderIn_to_lowercase order.
Proof.
  unfold OrderIn_to_lowercase. simpl. rewrite lower_idemp. f_equal.
  rewrite <-list_fmap_compose. apply list_fmap_ext.
  intros _ item _. apply lower_item_idemp.
Qed.

(** X6: [create_order] reads the user id and the product ids without
    regard to letter case: two orders whose user ids agree once
    lowercased and whose items agree, one by one, in quantity and in
    lowercased product id get the same outcome, the same response and
    the same stored document. *)
Theorem create_order_case_insensitive order1 order2 db :
  lower (user_id order1) = lower (user_id order2) →
  Forall2 same_item (items order1) (items order2) →
  create_order order1 db = create_order order2 db.
Proof.
  intros Huser Hitems.
  assert (Heq : OrderIn_to_lowercase order1 = OrderIn_to_lowercase order2).
  { unfold OrderIn_to_lowercase. rewrite Huser. f_equal.
    induction Hitems as [|a b its1 its2 [Hid Hqty] _ IH]; [done|].
    rewrite !fmap_cons, IH. f_equal.
    unfold lower_item. by rewrite Hid, Hqty. }
  unfold create_order. by rewrite Heq.
Qed.

Lemma create_order_case_insensitive_sample :
  create_order shouting_order sample_db = create_order sample_order sample_db.
Proof.
  apply create_order_case_insensitive.
  - reflexivity.
  - repeat constructor.
Defined.

(** ** Products *)

Lemma truthy_lower s : truthy (lower s) = truthy s.
Proof. by destruct s. Qed.

Lemma lower_if_truthy_idemp o :
  lower_if_truthy (lower_if_truthy o) = lower_if_truthy o.
Proof.
  destruct o as [s|]; simpl; [|done].
  destruct (truthy s) eqn:Hs; simpl; [|done].
  by rewrite truthy_lower, Hs, lower_idemp.
Qed.

Lemma ProductIn_to_lowercase_idemp product :
  ProductIn_to_lowercase (ProductIn_to_lowercase product)
  = ProductIn_to_lowercase product.
Proof.
  unfold ProductIn_to_lowercase. simpl.
  by rewrite lower_idemp, !lower_if_truthy_idemp.
Qed.


(** ** Identifiers handed out by the store *)

Lemma hex_digit_cases (a : N) (P : N → Prop) :
  (a < 16)%N →
  P 0%N → P 1%N → P 2%N → P 3%N → P 4%N → P 5%N → P 6%N → P 7%N →
  P 8%N → P 9%N → P 10%N → P 11%N → P 12%N → P 13%N → P 14%N → P 15%N →
  P a.
Proof.
  intros Ha. destruct a as [|p]; [done|].
  do 4 (try destruct p as [p|p|]); try done; exfalso; lia.
Qed.


Lemma hex_digit_inj a b :
  (a < 16)%N → (b < 16)%N → hex_digit a = hex_digit b → a = b.
Proof.
  intros Ha Hb. revert b Hb.
  apply (hex_digit_cases a); [done|..];
    intros b Hb; apply (hex_digit_cases b); done.
Qed.




Lemma hex_digits_inj width n m acc acc' :
  String.length acc = String.length acc' →
  hex_digits width n acc = hex_digits width m acc' →
  (n mod 16 ^ N.of_nat width = m mod 16 ^ N.of_nat width)%N ∧ acc = acc'.
Proof.
  revert n m acc acc'.
  induction width as [|w IH]; intros n m acc acc' Hlen Heq.
  - simpl in Heq. split; [|done]. by rewrite !N.mod_1_r.
  - simpl in Heq. apply IH in Heq as [Hdiv [= Hdigit ->]]; [|simpl; lia].
    split; [|done].
    apply hex_digit_inj in Hdigit; [|by apply N.mod_lt..].
    rewrite Nat2N.inj_succ, N.pow_succ_r'.
    rewrite !(N.Div0.mod_mul_r _ 16). by rewrite Hdigit, Hdiv.
Qed.

Arguments ObjectId_new : simpl never.


Lemma ObjectId_new_inj n m :
  (n < 16 ^ 24)%N → (m < 16 ^ 24)%N →
  ObjectId_new n = ObjectId_new m → n = m.
Proof.
  intros Hn Hm Heq. apply (f_equal oid_hex) in Heq.
  unfold ObjectId_new in Heq. cbn [oid_hex] in Heq.
  apply hex_digits_inj in Heq as [Heq _]; [|done].
  change (N.of_nat 24) with 24%N in Heq.
  by rewrite !N.mod_small in Heq.
Qed.

(** ** Invariants of the reachable databases *)

Lemma create_order_cases order db :
  snd (create_order order db) = db
  ∨ ∃ tot,
      snd (create_order order db)
      = snd (insert_one_order (lower (user_id order))
                              (lower_item <$> items order) tot db)
      ∧ (unique_product_ids db →
         Forall (fun item => is_Some (referenced_product db item))
                (items order)).
Proof.
  destruct (create_order order db) as [out db'] eqn:Hrun.
  destruct out as [resp| | |];
    try (left; revert Hrun; unfold create_order;
         destruct (object_ids _); [by intros [= <-]|]; cbv zeta;
         destruct (decide _); [by intros [= <-]|];
         destruct (line_totals _ _); [by intros [= <-]|done]).
  right. pose proof Hrun as (tot & _ & ->)%create_order_Return.
  exists tot. split; [done|]. intros Hunique.
  destruct (object_ids (items (OrderIn_to_lowercase order)))
    as [e|ids] eqn:Hids.
  { unfold create_order in Hrun. by rewrite Hids in Hrun. }
  pose proof (object_ids_lowercase_well_formed _ _ Hids) as Hwf.
  rewrite (create_order_parsed db Hunique order Hwf) in Hrun.
  cbv zeta in Hrun. destruct (decide _) as [[_ Hall]|_]; [|done].
  by apply requested_ids_in_store.
Qed.

Lemma referenced_product_lower_item db item :
  is_Some (referenced_product db item) →
  is_Some (referenced_product db (lower_item item)).
Proof.
  unfold referenced_product. simpl.
  destruct (ObjectId_of_str (product_id item)) as [e|oid] eqn:Hoid.
  - by intros [? ?].
  - by rewrite (ObjectId_of_str_lower_inr _ _ Hoid).
Qed.

Lemma referenced_product_grows db db' item doc :
  products db' = (products db ++ [doc])%list →
  is_Some (referenced_product db item) →
  is_Some (referenced_product db' item).
Proof.
  intros Hdb'. unfold referenced_product. rewrite Hdb'.
  destruct (ObjectId_of_str (product_id item)) as [e|oid]; [done|].
  rewrite filter_app.
  destruct (filter _ (products db)) as [|p l]; [by intros [? ?]|].
  intros _. by eexists.
Qed.

Lemma fresh_below db :
  ids_below db → (oid_counter db < 16 ^ 24)%N →
  ObjectId_new (oid_counter db) ∉ (store_ids db ++ order_ids db)%list.
Proof.
  intros Hbelow Hbound Hin.
  eapply Forall_forall in Hbelow as (n & Hn & Heq); [|exact Hin].
  apply ObjectId_new_inj in Heq; [lia|done|lia].
Qed.

Lemma ids_below_succ db ids oid :
  Forall (fun oid => ∃ n, (n < oid_counter db)%N ∧ oid = ObjectId_new n) ids →
  oid = ObjectId_new (oid_counter db) →
  Forall (fun oid => ∃ n, (n < N.succ (oid_counter db))%N
                          ∧ oid = ObjectId_new n) (oid :: ids).
Proof.
  intros Hids ->. constructor.
  - exists (oid_counter db). split; [lia|done].
  - eapply Forall_impl; [exact Hids|].
    intros o (n & Hn & ->). exists n. split; [lia|done].
Qed.

Lemma insert_one_product_invariant doc db :
  db_invariant db → (oid_counter db < 16 ^ 24)%N →
  ProductIn_to_lowercase doc = doc →
  db_invariant (snd (insert_one_product doc db)).
Proof.
  intros [Hp Ho Hbelow Hpn Hon Href] Hbound Hdoc.
  pose proof (fresh_below db Hbelow Hbound) as Hfresh.
  rewrite elem_of_app in Hfresh.
  split; simpl.
  - unfold unique_product_ids, store_ids. simpl.
    rewrite fmap_app. apply NoDup_app. split; [done|].
    split; [|apply NoDup_singleton].
    intros oid Hin [->|[]%elem_of_nil]%elem_of_cons. tauto.
  - done.
  - unfold ids_below, store_ids, order_ids in *. simpl.
    rewrite fmap_app. simpl.
    assert (Hperm : ((product_oid <$> products db)
                     ++ [ObjectId_new (oid_counter db)])
                    ++ (order_oid <$> orders db)
                    ≡ₚ ObjectId_new (oid_counter db)
                       :: (product_oid <$> products db)
                          ++ (order_oid <$> orders db)).
    { rewrite <-(assoc_L (++)). simpl. symmetry. apply Permutation_middle. }
    rewrite Hperm. by apply ids_below_succ.
  - unfold products_normalized. simpl. apply Forall_app. split; [done|].
    by constructor.
  - done.
  - unfold referential_integrity in *. simpl.
    eapply Forall_impl; [exact Href|]. intros o Ho'.
    eapply Forall_impl; [exact Ho'|]. intros item.
    by eapply (referenced_product_grows db).
Qed.

Lemma insert_one_order_invariant user its tot db :
  db_invariant db → (oid_counter db < 16 ^ 24)%N →
  lower user = user →
  Forall (fun item => lower (product_id item) = product_id item) its →
  Forall (fun item => is_Some (referenced_product db item)) its →
  db_invariant (snd (insert_one_order user its tot db)).
Proof.
  intros [Hp Ho Hbelow Hpn Hon Href] Hbound Huser Hlow Hits.
  pose proof (fresh_below db Hbelow Hbound) as Hfresh.
  rewrite elem_of_app in Hfresh.
  split; simpl.
  - done.
  - unfold unique_order_ids, order_ids. simpl.
    rewrite fmap_app. apply NoDup_app. split; [done|].
    split; [|apply NoDup_singleton].
    intros oid Hin [->|[]%elem_of_nil]%elem_of_cons. tauto.
  - unfold ids_below, store_ids, order_ids in *. simpl.
    rewrite fmap_app. simpl.
    assert (Hperm : (product_oid <$> products db)
                    ++ (order_oid <$> orders db)
                       ++ [ObjectId_new (oid_counter db)]
                    ≡ₚ ObjectId_new (oid_counter db)
                       :: (product_oid <$> products db)
                          ++ (order_oid <$> orders db)).
    { rewrite (assoc_L (++)). symmetry. apply Permutation_cons_append. }
    rewrite Hperm. by apply ids_below_succ.
  - done.
  - unfold orders_normalized. simpl. apply Forall_app. split; [done|].
    by constructor.
  - unfold referential_integrity in *. simpl.
    apply Forall_app. split; [done|]. by constructor.
Qed.

Lemma post_products_invariant body db :
  db_invariant db → (oid_counter (snd (post_products body db)) ≤ 16 ^ 24)%N →
  db_invariant (snd (post_products body db)).
Proof.
  unfold post_products. destruct (ProductIn_valid body); [|done].
  unfold create_product.
  change (snd (let '(inserted_id, db') :=
                 insert_one_product (ProductIn_to_lowercase body) db in
               (Return {| product_out_id := str inserted_id;
                          product_out_fields := ProductIn_to_lowercase body |},
                db')))
    with (snd (insert_one_product (ProductIn_to_lowercase body) db)).
  intros Hinv Hbound. apply insert_one_product_invariant; [done| |].
  - simpl in Hbound. lia.
  - apply ProductIn_to_lowercase_idemp.
Qed.

Lemma post_orders_invariant body db :
  db_invariant db → (oid_counter (snd (post_orders body db)) ≤ 16 ^ 24)%N →
  db_invariant (snd (post_orders body db)).
Proof.
  unfold post_orders. destruct (OrderIn_valid body); [|done].
  intros Hinv.
  destruct (create_order_cases body db) as [->|(tot & -> & Href)]; [done|].
  intros Hbound. apply insert_one_order_invariant; [done| | | |].
  - simpl in Hbound. lia.
  - apply lower_idemp.
  - apply Forall_fmap, Forall_true. intros item. simpl. apply lower_idemp.
  - apply Forall_fmap. eapply Forall_impl; [apply Href, Hinv|].
    intros item. apply referenced_product_lower_item.
Qed.

Lemma post_products_counter body db :
  (oid_counter db ≤ oid_counter (snd (post_products body db)))%N.
Proof.
  unfold post_products. destruct (ProductIn_valid body); simpl; lia.
Qed.

Lemma post_orders_counter body db :
  (oid_counter db ≤ oid_counter (snd (post_orders body db)))%N.
Proof.
  unfold post_orders. destruct (OrderIn_valid body); [|simpl; lia].
  destruct (create_order_cases body db) as [->|(tot & -> & _)]; simpl; lia.
Qed.

(** X8: what the writing endpoints keep true.  In every database
    reached from the empty one through POST /products and POST /orders,
    as long as fewer than 16^24 identifiers were handed out: product
    identifiers are pairwise distinct, and so are order identifiers;
    stored products and orders are in lowercase form; and every item of
    every stored order refers to a stored product. *)
Theorem reachable_invariant db :
  reachable db → (oid_counter db ≤ 16 ^ 24)%N → db_invariant db.
Proof.
  induction 1 as [|body db _ IH|body db _ IH]; intros Hbound.
  - split; try by constructor.
  - apply post_products_invariant; [|done].
    apply IH. etrans; [apply (post_products_counter body)|done].
  - apply post_orders_invariant; [|done].
    apply IH. etrans; [apply (post_orders_counter body)|done].
Qed.

Lemma reachable_invariant_sample :
  db_invariant traded_db ∧ length (orders traded_db) = 1.
Proof.
  split; [|reflexivity].
  apply reachable_invariant.
  - apply reachable_post_orders, reachable_post_products, reachable_empty.
  - by vm_compute.
Defined.

(** ** Pages *)

Lemma page_app {A} (l : list A) a b offset :
  (take a (drop offset l) ++ take b (drop (offset + a) l))%list
  = take (a + b) (drop offset l).
Proof. by rewrite <-drop_drop, take_take_drop. Qed.

Lemma page_beyond {A} (l : list A) limit offset :
  length l ≤ offset → take limit (drop offset l) = [].
Proof. intros Hlen. rewrite drop_ge by done. apply take_nil. Qed.

(** X9: pages fit together.  For both listings, the page of [a] records
    at [offset] followed by the page of [b] records at [offset + a] is
    the page of [a + b] records at [offset]; and a page that starts at or
    beyond the number of stored documents is empty. *)
Theorem pages_compose :
  (∀ uid a b offset db,
     (list_orders uid a offset db ++ list_orders uid b (offset + a) db)%list
     = list_orders uid (a + b) offset db)
  ∧ (∀ name_param size_param a b offset db first second,
       list_products name_param size_param a offset db = Some first →
       list_products name_param size_param b (offset + a) db = Some second →
       list_products name_param size_param (a + b) offset db
       = Some (first ++ second)%list)
  ∧ (∀ uid limit offset db,
       length (orders db) ≤ offset → list_orders uid limit offset db = [])
  ∧ (∀ name_param size_param limit offset db page,
       length (products db) ≤ offset →
       list_products name_param size_param limit offset db = Some page →
       page = []).
Proof.
  split; [|split; [|split]].
  - intros. rewrite !list_orders_unfold, <-fmap_app. f_equal. apply page_app.
  - intros name_param size_param a b offset db first second.
    rewrite !list_products_unfold.
    destruct (find_products _ _) as [matching|]; [|done]. simpl.
    intros [= <-] [= <-]. unfold product_page.
    by rewrite <-fmap_app, page_app.
  - intros uid limit offset db Hlen. rewrite list_orders_unfold.
    rewrite page_beyond; [done|].
    unfold sort_orders, orders_of. rewrite merge_sort_Permutation.
    etrans; [apply length_filter|done].
  - intros name_param size_param limit offset db page Hlen.
    rewrite list_products_unfold.
    destruct (find_products _ _) as [matching|] eqn:Hfind; [|done]. simpl.
    intros [= <-]. unfold product_page. rewrite page_beyond; [done|].
    unfold sort_products. rewrite merge_sort_Permutation.
    etrans; [|exact Hlen].
    by apply sublist_length, find_products_sublist with (build_query name_param size_param).
Qed.

Lemma pages_compose_fifteen :
  ∃ first second,
    list_products None None 10 0 fifteen_db = Some first
    ∧ list_products None None 10 10 fifteen_db = Some second
    ∧ list_products None None 20 0 fifteen_db = Some (first ++ second)%list.
Proof.
  eexists _, _. split; [reflexivity|]. split; [reflexivity|].
  apply (proj1 (proj2 pages_compose) None None 10 10 0 fifteen_db);
    reflexivity.
Defined.

(** ** Orders of a user *)

Global Instance order_le_trans : Transitive order_le.
Proof. intros p q r. unfold order_le, oid_le. apply transitivity. Qed.

Global Instance order_le_total : Total order_le.
Proof. intros p q. unfold order_le, oid_le. apply String.le_total. Qed.

Lemma sort_orders_NoDup uid db :
  unique_order_ids db →
  NoDup (order_oid <$> sort_orders (orders_of uid db)).
Proof.
  intros Hunique. unfold sort_orders. rewrite merge_sort_Permutation.
  apply (sublist_NoDup _ (order_ids db)); [exact Hunique|].
  unfold order_ids, orders_of. apply fmap_sublist, sublist_filter.
Qed.

Lemma render_order_inj_id p q :
  render_order p = render_order q → order_oid p = order_oid q.
Proof. intros [= Hid _]. by apply (inj str). Qed.

(** X10: a page of [list_orders].  For every database with unique order
    identifiers, the page holds at most [limit] records, all of them
    orders stored under the lowercased user id, in ascending identifier
    order, and none of them is on the page that follows. *)
Theorem list_orders_page uid limit offset db :
  unique_order_ids db →
  length (list_orders uid limit offset db) ≤ limit
  ∧ Forall (fun x => out_user_id x = lower uid)
           (list_orders uid limit offset db)
  ∧ StronglySorted String.le
      (order_out_id <$> list_orders uid limit offset db)
  ∧ (∀ x, x ∈ list_orders uid limit offset db →
          x ∉ list_orders uid limit (offset + limit) db).
Proof.
  intros Hunique. rewrite !list_orders_unfold.
  pose proof (sort_orders_NoDup uid db Hunique) as Hnd.
  assert (Hsorted : StronglySorted order_le (sort_orders (orders_of uid db)))
    by (apply StronglySorted_merge_sort; apply _).
  assert (Hmine : Forall (fun o => order_user_id o = lower uid)
                         (sort_orders (orders_of uid db))).
  { unfold sort_orders. rewrite merge_sort_Permutation.
    unfold orders_of. apply Forall_forall.
    by intros o [Ho _]%list_elem_of_filter. }
  set (sorted := sort_orders (orders_of uid db)) in *.
  split; [|split; [|split]].
  - rewrite length_fmap, length_take. lia.
  - apply Forall_fmap. eapply Forall_impl.
    + apply Forall_take, Forall_drop, Hmine.
    + by intros o Ho.
  - rewrite <-list_fmap_compose.
    eapply StronglySorted_fmap;
      [|by apply StronglySorted_take, StronglySorted_drop].
    intros p q Hpq. exact Hpq.
  - intros x Hx Hnext.
    apply list_elem_of_fmap in Hx as (p & -> & Hp).
    apply list_elem_of_fmap in Hnext as (q & Hpq & Hq).
    apply render_order_inj_id in Hpq.
    apply elem_of_page_inv in Hp as (i & Hi & Hirange).
    apply elem_of_page_inv in Hq as (j & Hj & Hjrange).
    assert (i = j); [|lia].
    apply (NoDup_lookup (order_oid <$> sorted) i j (order_oid p) Hnd).
    + by rewrite list_lookup_fmap, Hi.
    + by rewrite list_lookup_fmap, Hj, Hpq.
Qed.

Lemma list_orders_page_sample :
  length (list_orders "ALICE" 3 2 busy_db) ≤ 3
  ∧ Forall (fun x => out_user_id x = "alice") (list_orders "ALICE" 3 2 busy_db).
Proof.
  destruct (list_orders_page "ALICE" 3 2 busy_db) as (Hlen & Hmine & _).
  - unfold unique_order_ids. apply (bool_decide_unpack _). vm_compute. exact I.
  - by split.
Defined.

(** X11: no stored order is out of reach.  When the stored user ids are
    in lowercase form, every stored order appears in the listing of its
    own user id, written in any letter case, at some position [n]: every
    page that covers [n] returns it. *)
Theorem list_orders_complete db o v :
  orders_normalized db →
  o ∈ orders db →
  lower v = lower (order_user_id o) →
  ∃ n, n < length (orders db)
       ∧ ∀ limit offset, offset ≤ n < offset + limit →
                         render_order o ∈ list_orders v limit offset db.
Proof.
  intros Hnorm Ho Hv.
  assert (Huser : order_user_id o = lower v).
  { eapply Forall_forall in Hnorm as [Hlow _]; [|exact Ho]. congruence. }
  assert (Hin : o ∈ sort_orders (orders_of v db)).
  { unfold sort_orders. rewrite merge_sort_Permutation.
    unfold orders_of. by apply list_elem_of_filter. }
  apply list_elem_of_lookup in Hin as [n Hn]. exists n. split.
  - apply lookup_lt_Some in Hn. unfold sort_orders in Hn.
    rewrite merge_sort_Permutation in Hn.
    eapply Nat.lt_le_trans; [exact Hn|]. apply length_filter.
  - intros limit offset Hcover. rewrite list_orders_unfold.
    apply list_elem_of_fmap_2. by eapply elem_of_page.
Qed.

Lemma list_orders_complete_sample :
  ∃ o n,
    o ∈ orders traded_db
    ∧ n < length (orders traded_db)
    ∧ render_order o ∈ list_orders "BOB" 10 0 traded_db.
Proof.
  destruct (orders traded_db) as [|o rest] eqn:Horders;
    [vm_compute in Horders; discriminate|].
  destruct (list_orders_complete traded_db o "BOB") as (n & Hn & Hpage).
  - repeat constructor.
  - rewrite Horders. left.
  - vm_compute in Horders. by injection Horders as <- _.
  - exists o, n. rewrite <-Horders. split; [rewrite Horders; left|].
    split; [done|]. apply Hpage.
    assert (length (orders traded_db) = 1) as Hone by reflexivity. lia.
Defined.

(** ** Query parameters *)

Lemma limit_param_Some limit l :
  limit_param limit = Some l →
  (1 ≤ default 10 limit ≤ 100)%Z ∧ 1 ≤ l ≤ 100 ∧ (limit = None → l = 10).
Proof.
  unfold limit_param. cbv zeta.
  destruct (_ && _) eqn:Hok; [|done]. intros [= <-].
  apply andb_true_iff in Hok as [Hlo Hhi].
  apply Z.leb_le in Hlo, Hhi. split; [lia|]. split; [lia|]. by intros ->.
Qed.

Lemma limit_param_None limit :
  limit_param limit = None → ¬ (1 ≤ default 10 limit ≤ 100)%Z.
Proof.
  unfold limit_param. cbv zeta.
  destruct (_ && _) eqn:Hok; [done|]. intros _ [Hlo Hhi].
  apply Z.leb_le in Hlo, Hhi. by rewrite Hlo, Hhi in Hok.
Qed.

Lemma offset_param_Some offset o :
  offset_param offset = Some o → (0 ≤ default 0 offset)%Z.
Proof.
  unfold offset_param. cbv zeta.
  destruct (_ <=? _)%Z eqn:Hok; [|done]. intros _. by apply Z.leb_le.
Qed.

Lemma offset_param_None offset :
  offset_param offset = None → ¬ (0 ≤ default 0 offset)%Z.
Proof.
  unfold offset_param. cbv zeta.
  destruct (_ <=? _)%Z eqn:Hok; [done|]. intros _ Hle.
  apply Z.leb_le in Hle. congruence.
Qed.

(** X12: what the listings accept and how much they return.  A request
    is refused before the handler runs exactly when [limit] (10 when
    absent) is outside 1..100 or [offset] (0 when absent) is negative;
    an accepted request returns at most [limit] records, so never more
    than 100, and at most 10 when no limit is given. *)
Theorem listing_bounds uid name_param size_param limit offset db :
  (get_orders uid limit offset db = RequestValidationError
   ↔ ¬ (1 ≤ default 10 limit ≤ 100 ∧ 0 ≤ default 0 offset)%Z)
  ∧ (get_products name_param size_param limit offset db
     = Some RequestValidationError
     ↔ ¬ (1 ≤ default 10 limit ≤ 100 ∧ 0 ≤ default 0 offset)%Z)
  ∧ (∀ page, get_orders uid limit offset db = Return page →
             length page ≤ 100 ∧ (limit = None → length page ≤ 10))
  ∧ (∀ page,
       get_products name_param size_param limit offset db
       = Some (Return page) →
       length page ≤ 100 ∧ (limit = None → length page ≤ 10)).
Proof.
  unfold get_orders, get_products.
  destruct (limit_param limit) as [l|] eqn:Hl.
  - apply limit_param_Some in Hl as (Hlimit & Hrange & Hdefault).
    destruct (offset_param offset) as [o|] eqn:Ho.
    + apply offset_param_Some in Ho.
      split; [split; [done|tauto]|].
      split.
      { destruct (list_products name_param size_param l o db);
          simpl; (split; [done|tauto]). }
      split.
      * intros page [= <-].
        assert (length (list_orders uid l o db) ≤ l).
        { rewrite list_orders_unfold, length_fmap, length_take. lia. }
        split; [lia|]. intros Hnone. specialize (Hdefault Hnone). lia.
      * intros page Hpage. rewrite list_products_unfold in Hpage.
        destruct (find_products _ _) as [matching|]; [|done].
        simpl in Hpage. injection Hpage as <-.
        assert (length (render_product <$> product_page matching l o) ≤ l).
        { unfold product_page. rewrite length_fmap, length_take. lia. }
        split; [lia|]. intros Hnone. specialize (Hdefault Hnone). lia.
    + apply offset_param_None in Ho.
      split; [split; [tauto|done]|].
      split; [split; [tauto|done]|].
      split; intros page; discriminate.
  - apply limit_param_None in Hl.
    split; [split; [tauto|done]|].
    split; [split; [tauto|done]|].
    split; intros page; discriminate.
Qed.

(** ** Finding a posted product *)

Lemma icontains_lower_hay needle hay :
  icontains needle (lower hay) = icontains needle hay.
Proof. unfold icontains. by rewrite lower_idemp. Qed.

Lemma query_name_build name_param size_param :
  query_name (build_query name_param size_param)
  = match name_param with
    | Some (String c n) => Some (String c n)
    | _ => None
    end.
Proof. by destruct name_param as [[|c n]|]. Qed.

Lemma query_size_build name_param size_param :
  query_size (build_query name_param size_param)
  = match size_param with
    | Some (String c s) => Some (lower (String c s))
    | _ => None
    end.
Proof. by destruct size_param as [[|c s]|]. Qed.

Lemma find_products_selects name_param size_param nm sz coll :
  name_query_selects name_param nm →
  size_query_selects size_param sz →
  ∃ matching,
    find_products (build_query name_param size_param) coll = Some matching
    ∧ ∀ p, p ∈ coll →
           name (product_fields p) = lower nm →
           size (product_fields p) = lower_if_truthy sz →
           p ∈ matching.
Proof.
  intros Hname Hsize.
  assert (Hsz : ∀ p, size (product_fields p) = lower_if_truthy sz →
                     size_matches
                       (query_size (build_query name_param size_param)) p
                     = true).
  { intros p Hp. rewrite query_size_build.
    destruct size_param as [[|c s]|]; [done| |done].
    destruct Hsize as [|(given & -> & Hne & Hlow)]; [done|].
    apply bool_decide_eq_true. rewrite Hp.
    destruct given as [|d given]; [done|].
    cbn [lower_if_truthy truthy]. by rewrite <-Hlow. }
  unfold find_products. rewrite query_name_build.
  destruct name_param as [[|c n]|].
  - eexists. split; [reflexivity|]. intros p Hp _ Hs.
    apply list_elem_of_filter. split; [|done].
    rewrite (Hsz p Hs). done.
  - destruct Hname as [|[Hlit Hin]]; [done|].
    rewrite (compile_regex_literal (String c n) Hlit).
    eexists. split; [reflexivity|]. intros p Hp Hnm Hs.
    apply list_elem_of_filter. split; [|done].
    rewrite (Hsz p Hs). cbn [name_matches].
    rewrite (regex_search_literal (String c n)), Hnm, icontains_lower_hay, Hin.
    done.
  - eexists. split; [reflexivity|]. intros p Hp _ Hs.
    apply list_elem_of_filter. split; [|done].
    rewrite (Hsz p Hs). done.
Qed.

(** X13: a posted product can be found.  After [create_product], every
    listing whose [name] filter is absent, empty, or a metacharacter-free
    string contained in the posted name, and whose [size] filter is
    absent, empty, or the posted non-empty size, both compared without
    regard to case, holds the created product at some position [n], at
    most the number of products stored before: every page covering [n]
    returns the response of [create_product]. *)
Theorem created_product_found product db out db' name_param size_param :
  create_product product db = (Return out, db') →
  name_query_selects name_param (name product) →
  size_query_selects size_param (size product) →
  ∃ n, n ≤ length (products db)
       ∧ ∀ limit offset, offset ≤ n < offset + limit →
           ∃ page,
             list_products name_param size_param limit offset db' = Some page
             ∧ out ∈ page.
Proof.
  unfold create_product. simpl. intros [= <- <-] Hname Hsize.
  set (doc := {| product_oid := ObjectId_new (oid_counter db);
                 product_fields := ProductIn_to_lowercase product |}).
  set (coll := (products db ++ [doc])%list).
  destruct (find_products_selects name_param size_param
              (name product) (size product) coll Hname Hsize)
    as (matching & Hfind & Hdoc).
  assert (Hin : doc ∈ sort_products matching).
  { unfold sort_products. rewrite merge_sort_Permutation.
    apply Hdoc; [|done..]. apply elem_of_app. right. by left. }
  apply list_elem_of_lookup in Hin as [n Hn]. exists n. split.
  - apply lookup_lt_Some in Hn. unfold sort_products in Hn.
    rewrite merge_sort_Permutation in Hn.
    apply find_products_sublist, sublist_length in Hfind.
    unfold coll in Hfind. rewrite length_app in Hfind. simpl in Hfind. lia.
  - intros limit offset Hcover. rewrite list_products_unfold.
    simpl products. fold coll. rewrite Hfind. simpl.
    eexists. split; [reflexivity|].
    apply (list_elem_of_fmap_2 render_product _ doc).
    unfold product_page. by eapply elem_of_page.
Qed.

Lemma created_product_found_sample :
  ∃ out db' page,
    create_product notebook empty_db = (Return out, db')
    ∧ list_products (Some "BOOK") (Some "l") 10 0 db' = Some page
    ∧ out ∈ page.
Proof.
  destruct (create_product notebook empty_db) as [res db'] eqn:Hrun.
  destruct res as [out| | |]; try (vm_compute in Hrun; discriminate).
  destruct (created_product_found notebook empty_db out db'
              (Some "BOOK") (Some "l") Hrun) as (n & Hn & Hpage).
  - right. split; vm_compute; reflexivity.
  - right. exists "L". repeat split. discriminate.
  - destruct (Hpage 10 0) as (page & Hlist & Hin).
    + simpl in Hn. lia.
    + by exists out, db', page.
Defined.

(** ** The name filter and letter case *)










(** ** Ordering a posted product *)



